(** * CoomerDL: the download-orchestration core

    A shallow embedding of [downloader/base.py], [downloader/factory.py] and
    [downloader/history.py], with the scheduler's persisted table modelled from
    its specification, and the properties of the handler contract, the handler
    selector, the history store and the scheduler that are proved about them.

    Conventions of the embedding:
    - a Python [str] is a [string], a sequence of characters of a code
      below 256, compared character by character as Python and SQLite's
      BINARY collation do; a text with a character of a larger code is not
      among the values;
    - a Python [int] is a [Z], of any size; [Optional[T]] is [option T];
    - a method of a class takes the fields of [self] it reads as arguments;
    - a call that may raise returns a [result], and a method of the store
      that may raise returns the store it leaves with the [result]. *)

From Stdlib Require Import ZArith Lia Ascii.
From stdpp Require Import base option list sorting strings gmap.

Local Open Scope Z_scope.
Local Set Warnings "-clear-no-such-hyp".


(** ** Python strings *)

Module PyStr.

(** The characters that cannot be written inside a string literal. *)
Definition dquote : ascii := ascii_of_nat 34.
Definition backslash : ascii := ascii_of_nat 92.

(** [bool(s)]: a string is truthy when it is not empty. *)
Definition truthy (s : string) : bool :=
  match s with
  | EmptyString => false
  | String _ _ => true
  end.

(** [c in s] for a single character [c]. *)
Fixpoint contains_char (c : ascii) (s : string) : bool :=
  match s with
  | EmptyString => false
  | String d s' => if Ascii.eqb c d then true else contains_char c s'
  end.

(** [s.rsplit(sep, 1)[-1]]: what follows the last [sep], all of [s] when
    [sep] does not occur. *)
Fixpoint rsplit_last (sep : ascii) (s : string) : string :=
  match s with
  | EmptyString => EmptyString
  | String c s' =>
      if contains_char sep s' then rsplit_last sep s'
      else if Ascii.eqb c sep then s' else String c s'
  end.

(** [str.lower] on one character, of a code below 256: the letters A to Z
    are moved to a to z, and the capital letters of Latin-1 (the codes 192
    to 222 but for the multiplication sign, 215) to their small letters, 32
    further; every other character is kept. Python lowers the capital
    letters of larger codes too, which a [string] does not hold. *)
Definition lower_char (c : ascii) : ascii :=
  let n := nat_of_ascii c in
  if (Nat.leb 65 n && Nat.leb n 90)%bool then ascii_of_nat (n + 32)%nat
  else if (Nat.leb 192 n && Nat.leb n 222 && negb (Nat.eqb n 215))%bool
       then ascii_of_nat (n + 32)%nat
       else c.

Fixpoint lower (s : string) : string :=
  match s with
  | EmptyString => EmptyString
  | String c s' => String (lower_char c) (lower s')
  end.

Fixpoint map_chars (f : ascii → ascii) (s : string) : string :=
  match s with
  | EmptyString => EmptyString
  | String c s' => String (f c) (map_chars f s')
  end.

(** [p] is a prefix of [s]: [s.startswith(p)]. *)
Fixpoint startswith (p s : string) : bool :=
  match p, s with
  | EmptyString, _ => true
  | String _ _, EmptyString => false
  | String a p', String b s' => if Ascii.eqb a b then startswith p' s' else false
  end.

(** [sub in s] for strings. *)
Fixpoint contains (sub s : string) : bool :=
  if startswith sub s then true
  else match s with
       | EmptyString => false
       | String _ s' => contains sub s'
       end.

End PyStr.

(** ** Exceptions and results *)

Module Py.

(** The exceptions the modelled calls raise. [ValueError] carries the
    text that is no value of an enum; the messages are left out. *)
Inductive exn :=
| ValueError (what : string)
| TypeError
| OverflowError
| RecursionError
| JSONDecodeError
| OperationalError.

Inductive result (A : Type) :=
| Ok (a : A)
| Raise (e : exn).
Arguments Ok {A} _.
Arguments Raise {A} _.

Global Instance result_ret : MRet result := λ A a, Ok a.
Global Instance result_bind : MBind result := λ A B k m,
  match m with
  | Ok a => k a
  | Raise e => Raise e
  end.

(** A list comprehension [[f(x) for x in l]] whose body may raise. *)
Fixpoint comprehension {A B} (f : A → result B) (l : list A) : result (list B) :=
  match l with
  | [] => Ok []
  | x :: l' => y ← f x; ys ← comprehension f l'; Ok (y :: ys)
  end.

End Py.

(** ** [downloader/base.py] *)

Module Base.

(** [DownloadOptions], with the defaults of the dataclass. *)
Record DownloadOptions := {
  download_images : bool;
  download_videos : bool;
  download_compressed : bool;
  download_documents : bool;
  max_retries : Z;
  retry_interval : Z;  (* in milliseconds; a float number of seconds in the source *)
  chunk_size : Z;
  timeout : Z;
  min_file_size : Z;
  max_file_size : Z;
  date_from : option string;
  date_to : option string
}.

Definition default_options : DownloadOptions := {|
  download_images := true;
  download_videos := true;
  download_compressed := true;
  download_documents := true;
  max_retries := 3;
  retry_interval := 2000;
  chunk_size := 1048576;
  timeout := 30;
  min_file_size := 0;
  max_file_size := 0;
  date_from := None;
  date_to := None
|}.

Record MediaItem := {
  url : string;
  filename : string;
  file_type : string;
  size : option Z;
  post_id : option string;
  user_id : option string;
  published_date : option string
}.

Definition IMAGE_EXTENSIONS : list string :=
  [".jpg"; ".jpeg"; ".png"; ".gif"; ".bmp"; ".tiff"; ".webp"].
Definition VIDEO_EXTENSIONS : list string :=
  [".mp4"; ".mkv"; ".webm"; ".mov"; ".avi"; ".flv"; ".wmv"; ".m4v"].
Definition DOCUMENT_EXTENSIONS : list string :=
  [".pdf"; ".doc"; ".docx"; ".xls"; ".xlsx"; ".ppt"; ".pptx"].
Definition COMPRESSED_EXTENSIONS : list string :=
  [".zip"; ".rar"; ".7z"; ".tar"; ".gz"].

(** [x in S] for a set of strings. *)
Definition in_set (x : string) (S : list string) : bool :=
  bool_decide (x ∈ S).

Definition get_file_type (filename : string) : string :=
  let ext :=
    if PyStr.contains_char "." filename
    then String "." (PyStr.lower (PyStr.rsplit_last "." filename))
    else "" in
  if in_set ext IMAGE_EXTENSIONS then "image"
  else if in_set ext VIDEO_EXTENSIONS then "video"
  else if in_set ext DOCUMENT_EXTENSIONS then "document"
  else if in_set ext COMPRESSED_EXTENSIONS then "compressed"
  else "other".

(** [bool(x)] for an [Optional[int]]: neither [None] nor zero. *)
Definition truthy_size (x : option Z) : bool :=
  match x with
  | None => false
  | Some n => negb (n =? 0)
  end.

(** The file type the filters look at:
    [media_item.file_type or self.get_file_type(media_item.filename)]. *)
Definition effective_file_type (media_item : MediaItem) : string :=
  if PyStr.truthy (file_type media_item) then file_type media_item
  else get_file_type (filename media_item).

Definition should_download_file
    (options : DownloadOptions) (media_item : MediaItem) : bool :=
  let file_type := effective_file_type media_item in
  if bool_decide (file_type = "image") && negb (download_images options) then false
  else if bool_decide (file_type = "video") && negb (download_videos options) then false
  else if bool_decide (file_type = "document") && negb (download_documents options) then false
  else if bool_decide (file_type = "compressed") && negb (download_compressed options) then false
  else if truthy_size (size media_item) then
    let sz := default 0 (size media_item) in
    if (0 <? min_file_size options) && (sz <? min_file_size options) then false
    else if (0 <? max_file_size options) && (max_file_size options <? sz) then false
    else true
  else true.

(** The toggle of the item's file type is off. *)
Definition toggle_disabled (options : DownloadOptions) (item : MediaItem) : Prop :=
  (effective_file_type item = "image" ∧ download_images options = false)
  ∨ (effective_file_type item = "video" ∧ download_videos options = false)
  ∨ (effective_file_type item = "document" ∧ download_documents options = false)
  ∨ (effective_file_type item = "compressed" ∧ download_compressed options = false).

Global Instance toggle_disabled_dec (options : DownloadOptions) (item : MediaItem) :
  Decision (toggle_disabled options item).
Proof. unfold toggle_disabled. apply _. Defined.

(** The character class of the pattern given to [re.sub]: the nine
    characters less-than, greater-than, colon, double quote, slash,
    backslash, bar, question mark and star. *)
Definition invalid_chars : list ascii :=
  ["<"; ">"; ":"; PyStr.dquote; "/"; PyStr.backslash; "|"; "?"; "*"]%char.

Definition sanitize_char (c : ascii) : ascii :=
  if bool_decide (c ∈ invalid_chars) then "_"%char else c.

Definition sanitize_filename (filename : string) : string :=
  PyStr.map_chars sanitize_char filename.

(** *** The state of a handler instance

    [Callback] is the type of the callables a handler is given (the log,
    progress and widget callbacks and the translation function); they are
    stored and never inspected by the code modelled here. *)
Section Instance.
Variable Callback : Type.

(** The keyword arguments of the constructor other than the folder and
    the options. *)
Record Kwargs := {
  kw_log_callback : option Callback;
  kw_progress_callback : option Callback;
  kw_global_progress_callback : option Callback;
  kw_enable_widgets_callback : option Callback;
  kw_tr : option Callback
}.

(** No keyword argument given: every callback defaults to [None]. *)
Definition no_kwargs : Kwargs := {|
  kw_log_callback := None;
  kw_progress_callback := None;
  kw_global_progress_callback := None;
  kw_enable_widgets_callback := None;
  kw_tr := None
|}.

Record BaseDownloader := {
  download_folder : string;
  options : DownloadOptions;
  log_callback : option Callback;
  progress_callback : option Callback;
  global_progress_callback : option Callback;
  enable_widgets_callback : option Callback;
  tr : option Callback;  (* [None] stands for the identity default *)
  cancel_event : bool;
  total_files : Z;
  completed_files : Z;
  failed_files : list string;
  skipped_files : list string
}.

(** [BaseDownloader.__init__]; [options or DownloadOptions()] keeps the
    given options, an instance of a dataclass being truthy. *)
Definition __init__
    (download_folder : string) (options : option DownloadOptions)
    (kwargs : Kwargs) : BaseDownloader := {|
  download_folder := download_folder;
  options := default default_options options;
  log_callback := kw_log_callback kwargs;
  progress_callback := kw_progress_callback kwargs;
  global_progress_callback := kw_global_progress_callback kwargs;
  enable_widgets_callback := kw_enable_widgets_callback kwargs;
  tr := kw_tr kwargs;
  cancel_event := false;
  total_files := 0;
  completed_files := 0;
  failed_files := [];
  skipped_files := []
|}.
End Instance.

Arguments no_kwargs {Callback}.
Arguments download_folder {Callback} _.
Arguments options {Callback} _.
Arguments log_callback {Callback} _.
Arguments cancel_event {Callback} _.
Arguments total_files {Callback} _.
Arguments completed_files {Callback} _.
Arguments failed_files {Callback} _.
Arguments skipped_files {Callback} _.
Arguments __init__ {Callback} _ _ _.

(** What the selector uses of a subclass [C] of [BaseDownloader]:
    [abstractmethods] is the set [__abstractmethods__] of the class, the
    abstract methods of [BaseDownloader] it leaves without a definition, and
    [supports_url] and [get_site_name] are its two methods that the
    selector calls on an instance; they read [self] and the URL. *)
Class HandlerContract (Callback : Type) (C : Type) := {
  abstractmethods : C → list string;
  supports_url : C → BaseDownloader Callback → string → bool;
  get_site_name : C → BaseDownloader Callback → string
}.

Arguments progress_callback {Callback} _.
Arguments global_progress_callback {Callback} _.
Arguments enable_widgets_callback {Callback} _.
Arguments tr {Callback} _.

(** *** Cancellation, reset and logging

    A call of a callback is recorded as the callback and the message it is
    given; a method that may call one returns the calls it made. *)
Section Lifecycle.
Context {Callback : Type}.

(** What the translation callable gives for a text. *)
Variable call_tr : Callback → string → string.

(** [self.tr(text)], the identity when no translation was given. *)
Definition translate (self : BaseDownloader Callback) (text : string) : string :=
  match tr self with
  | Some f => call_tr f text
  | None => text
  end.

Definition log (self : BaseDownloader Callback) (message : string)
  : list (Callback * string) :=
  match log_callback self with
  | Some callback => [(callback, message)]
  | None => []
  end.

Definition request_cancel (self : BaseDownloader Callback)
  : BaseDownloader Callback * list (Callback * string) :=
  let self' := {|
    download_folder := download_folder self;
    options := options self;
    log_callback := log_callback self;
    progress_callback := progress_callback self;
    global_progress_callback := global_progress_callback self;
    enable_widgets_callback := enable_widgets_callback self;
    tr := tr self;
    cancel_event := true;
    total_files := total_files self;
    completed_files := completed_files self;
    failed_files := failed_files self;
    skipped_files := skipped_files self
  |} in
  (self', log self' (translate self' "Download cancellation requested.")).

Definition is_cancelled (self : BaseDownloader Callback) : bool :=
  cancel_event self.

Definition reset (self : BaseDownloader Callback) : BaseDownloader Callback := {|
  download_folder := download_folder self;
  options := options self;
  log_callback := log_callback self;
  progress_callback := progress_callback self;
  global_progress_callback := global_progress_callback self;
  enable_widgets_callback := enable_widgets_callback self;
  tr := tr self;
  cancel_event := false;
  total_files := 0;
  completed_files := 0;
  failed_files := [];
  skipped_files := []
|}.

(** The keyword arguments an instance was built with. *)
Definition kwargs_of (self : BaseDownloader Callback) : Kwargs Callback := {|
  kw_log_callback := log_callback self;
  kw_progress_callback := progress_callback self;
  kw_global_progress_callback := global_progress_callback self;
  kw_enable_widgets_callback := enable_widgets_callback self;
  kw_tr := tr self
|}.
End Lifecycle.

(** The five tags [get_file_type] gives. *)
Definition file_type_tags : list string :=
  ["image"; "video"; "document"; "compressed"; "other"].

End Base.

(** ** [downloader/simpcity.py] *)

Module SimpCity.

(** The class method [SimpCity.supports_url]; [url or ""] takes [None] to
    the empty text. *)
Definition supports_url (url : option string) : bool :=
  PyStr.contains "simpcity" (PyStr.lower (default "" url)).

(** The class defines [supports_url] only: the two other abstract methods
    of [BaseDownloader] stay abstract. *)
Definition __abstractmethods__ : list string := ["download"; "get_site_name"].

End SimpCity.

(** ** [downloader/factory.py] *)

Module Factory.
Import Py Base.

Section Factory.
(** Handler classes are objects compared by identity ([in] on a list of
    classes): [C] is the type of the class objects that can be
    registered, each a subclass of [BaseDownloader] that keeps its
    constructor. *)
Context {Callback : Type} {C : Type} `{EqDecision C}.
Context `{!HandlerContract Callback C}.
(** The configuration type of the yt-dlp adapter. *)
Context {YtDlpOptions : Type}.

(** What the two deferred imports of [get_downloader] find.
    [downloader/ytdlp_adapter.py] and [downloader/generic.py] are not
    among the sources: [ytdlp_adapter] is [None] when importing the
    adapter raises [ImportError] and otherwise gives
    [YtDlpDownloader.supports_url]; [generic_module] tells whether
    [downloader.generic] can be imported. *)
Record Modules := {
  ytdlp_adapter :
    option (BaseDownloader Callback → option YtDlpOptions → string → bool);
  generic_module : bool
}.

(** An instance returned by the factory: of a registered class, of
    [YtDlpDownloader] or of [GenericDownloader]. *)
Inductive Downloader :=
| NativeInstance (cls : C) (self : BaseDownloader Callback)
| YtDlpInstance (self : BaseDownloader Callback) (ytdlp_options : option YtDlpOptions)
| GenericInstance (self : BaseDownloader Callback).

(** The class attribute [_downloader_classes]. *)
Definition registry := list C.

Definition register (_downloader_classes : registry) (downloader_class : C)
  : registry :=
  if bool_decide (downloader_class ∈ _downloader_classes)
  then _downloader_classes
  else _downloader_classes ++ [downloader_class].

Definition clear_registry (_downloader_classes : registry) : registry := [].

(** The call [downloader_class(download_folder=..., options=..., **kwargs)]:
    a class with an abstract method left raises [TypeError] (it cannot be
    instantiated), any other runs [BaseDownloader.__init__]. *)
Definition instantiate (downloader_class : C)
    (download_folder : string) (options : option DownloadOptions)
    (kwargs : Kwargs Callback) : result (BaseDownloader Callback) :=
  if abstractmethods downloader_class is [] then
    Ok (__init__ download_folder options kwargs)
  else Raise TypeError.

(** A class that can be instantiated: it leaves no abstract method. *)
Definition instantiable (downloader_class : C) : Prop :=
  abstractmethods downloader_class = [].

Global Instance instantiable_dec (downloader_class : C) :
  Decision (instantiable downloader_class).
Proof. unfold instantiable. apply _. Defined.

(** The loop over the registered classes. *)
Fixpoint native_downloader (classes : list C)
    (url download_folder : string) (options : option DownloadOptions)
    (kwargs : Kwargs Callback) : result (option Downloader) :=
  match classes with
  | [] => Ok None
  | downloader_class :: rest =>
      instance ← instantiate downloader_class download_folder options kwargs;
      if supports_url downloader_class instance url
      then Ok (Some (NativeInstance downloader_class instance))
      else native_downloader rest url download_folder options kwargs
  end.

(** The second tier: the yt-dlp adapter, when enabled and importable. *)
Definition ytdlp_downloader (env : Modules)
    (url download_folder : string) (options : option DownloadOptions)
    (use_ytdlp_fallback : bool) (ytdlp_options : option YtDlpOptions)
    (kwargs : Kwargs Callback) : option Downloader :=
  if use_ytdlp_fallback then
    match ytdlp_adapter env with
    | Some ytdlp_supports_url =>
        let ytdlp_instance := __init__ download_folder options kwargs in
        if ytdlp_supports_url ytdlp_instance ytdlp_options url
        then Some (YtDlpInstance ytdlp_instance ytdlp_options)
        else None
    | None => None
    end
  else None.

(** The third tier: the generic scraper, when enabled and importable. *)
Definition generic_downloader (env : Modules)
    (download_folder : string) (options : option DownloadOptions)
    (use_generic_fallback : bool) (kwargs : Kwargs Callback)
  : option Downloader :=
  if use_generic_fallback then
    if generic_module env
    then Some (GenericInstance (__init__ download_folder options kwargs))
    else None
  else None.

Definition get_downloader (env : Modules) (_downloader_classes : registry)
    (url download_folder : string) (options : option DownloadOptions)
    (use_generic_fallback use_ytdlp_fallback : bool)
    (ytdlp_options : option YtDlpOptions) (kwargs : Kwargs Callback)
  : result (option Downloader) :=
  native ← native_downloader _downloader_classes url download_folder options kwargs;
  match native with
  | Some instance => Ok (Some instance)
  | None =>
      match ytdlp_downloader env url download_folder options
              use_ytdlp_fallback ytdlp_options kwargs with
      | Some ytdlp_instance => Ok (Some ytdlp_instance)
      | None =>
          Ok (generic_downloader env download_folder options
                use_generic_fallback kwargs)
      end
  end.

Definition get_supported_sites (env : Modules) (_downloader_classes : registry)
  : result (list string) :=
  sites ← comprehension
    (λ downloader_class,
       instance ← instantiate downloader_class "" None no_kwargs;
       Ok (get_site_name downloader_class instance))
    _downloader_classes;
  match ytdlp_adapter env with
  | Some _ => Ok (sites ++ ["Universal (yt-dlp) - 1000+ sites"])
  | None => Ok sites
  end.
End Factory.

Arguments Modules : clear implicits.
Arguments Downloader : clear implicits.
Arguments registry : clear implicits.
End Factory.

(** ** [downloader/history.py] *)

Module History.
Export Py.

(** *** The model classes of [downloader/models.py] *)

(** A Python [Enum] with string values: [value] is [member.value] and
    [of_value s] is the call [E(s)], [None] standing for its [ValueError]. *)
Class PyEnum (E : Type) := {
  value : E → string;
  of_value : string → option E;
  of_value_value : ∀ e, of_value (value e) = Some e
}.

(** Modelled from the spec: [JobStatus] of [downloader/models.py], which is
    not among the sources; its members are the seven statuses of a
    DownloadJob, valued as the members of [DownloadStatus] in [base.py]. *)
Inductive JobStatus :=
| PENDING | DOWNLOADING | PAUSED | COMPLETED | FAILED | CANCELLED | SKIPPED.

Global Instance JobStatus_eq_dec : EqDecision JobStatus.
Proof. solve_decision. Defined.

Definition JobStatus_value (s : JobStatus) : string :=
  match s with
  | PENDING => "pending"
  | DOWNLOADING => "downloading"
  | PAUSED => "paused"
  | COMPLETED => "completed"
  | FAILED => "failed"
  | CANCELLED => "cancelled"
  | SKIPPED => "skipped"
  end.

Definition JobStatus_of_value (s : string) : option JobStatus :=
  list_find (λ m, JobStatus_value m = s)
    [PENDING; DOWNLOADING; PAUSED; COMPLETED; FAILED; CANCELLED; SKIPPED]
  ≫= λ p, Some p.2.

Global Program Instance JobStatus_enum : PyEnum JobStatus := {|
  value := JobStatus_value;
  of_value := JobStatus_of_value
|}.
Next Obligation. by intros []. Qed.

(** The values [json.dumps] takes and [json.loads] gives (floats left out). *)
#[local] Unset Elimination Schemes.
Inductive json :=
| JNull
| JBool (b : bool)
| JInt (n : Z)
| JStr (s : string)
| JList (items : list json)
| JDict (items : list (string * json)).
#[local] Set Elimination Schemes.

(** The empty dict [{}]. *)
Definition empty_dict : json := JDict [].

(** Modelled from the spec: [DownloadJob] of [downloader/models.py], with
    the fields [save_job] reads and [_row_to_job] fills. *)
Record DownloadJob := {
  id : string;
  url : string;
  engine : string;
  status : JobStatus;
  created_at : string;
  started_at : option string;
  finished_at : option string;
  total_items : Z;
  completed_items : Z;
  failed_items : Z;
  skipped_items : Z;
  output_folder : string;
  error_message : option string;
  options_snapshot : json
}.

(** *** The two tables *)

(** A row of [jobs]; a nullable column is an [option]. *)
Record job_row := {
  r_job_id : string;
  r_url : string;
  r_engine : string;
  r_status : string;
  r_created_at : string;
  r_started_at : option string;
  r_finished_at : option string;
  r_total_items : Z;
  r_completed_items : Z;
  r_failed_items : Z;
  r_skipped_items : Z;
  r_output_folder : option string;
  r_error_message : option string;
  r_options_json : option string
}.

(** A row of [events]; [e_id] is the AUTOINCREMENT key. *)
Record event_row := {
  e_id : Z;
  e_job_id : string;
  e_timestamp : string;
  e_type : string;
  e_payload_json : option string
}.

(** The database file: both tables in rowid order, and the largest key the
    [events] table ever held (the [sqlite_sequence] entry). Every method
    runs one transaction under the lock, so a method is a function of the
    database. *)
Record db := {
  jobs : list job_row;
  events : list event_row;
  events_seq : Z
}.

(** A fresh file after [_init_db]. *)
Definition empty_db : db := {| jobs := []; events := []; events_seq := 0 |}.

(** *** The SQL the methods run *)

(** [ORDER BY]: rows are sorted by the comparison [le] of their keys. SQL
    leaves the order of rows with equal keys open; they are kept here in the
    order of the scan (the rowid order), which is how SQLite's sorter leaves
    them. *)
Fixpoint order_insert {A} (le : A → A → bool) (x : A) (l : list A) : list A :=
  match l with
  | [] => [x]
  | y :: l' => if le x y then x :: y :: l' else y :: order_insert le x l'
  end.

Fixpoint order_by {A} (le : A → A → bool) (l : list A) : list A :=
  match l with
  | [] => []
  | x :: l' => order_insert le x (order_by le l')
  end.

(** A Python [int] is stored as a signed 64-bit integer: binding one
    outside that range to a parameter raises [OverflowError], and the
    statement is not run. *)
Definition int64 (n : Z) : Prop := - 2 ^ 63 ≤ n < 2 ^ 63.

Global Instance int64_dec (n : Z) : Decision (int64 n).
Proof. unfold int64. apply _. Defined.

Definition bind_int (n : Z) : result Z :=
  if bool_decide (int64 n) then Ok n else Raise OverflowError.

(** The integers among the parameters of a statement, bound in order. *)
Definition bind_ints (parameters : list Z) : result (list Z) :=
  comprehension bind_int parameters.

(** The four counters of a job fit their columns. *)
Definition storable (job : DownloadJob) : Prop :=
  Forall int64
    [total_items job; completed_items job; failed_items job; skipped_items job].

(** [LIMIT n]: a negative [n] means no limit. *)
Definition sql_limit {A} (n : Z) (l : list A) : list A :=
  if n <? 0 then l else take (Z.to_nat n) l.

(** [OFFSET n]: a negative [n] skips nothing. *)
Definition sql_offset {A} (n : Z) (l : list A) : list A :=
  drop (Z.to_nat n) l.

(** Comparison of TEXT values, and of nullable ones, NULL coming first. *)
Definition text_le (a b : string) : bool := String.leb a b.

Definition nullable_le (a b : option string) : bool :=
  match a, b with
  | None, _ => true
  | Some _, None => false
  | Some x, Some y => text_le x y
  end.

(** [AUTOINCREMENT]: one more than the largest key the table holds or
    ever held. *)
Definition next_event_id (d : db) : Z :=
  Z.max (events_seq d) (foldr Z.max 0 (e_id <$> events d)) + 1.

(** [SELECT status, COUNT( * ) FROM jobs GROUP BY status] read into a dict:
    a status is a key when a row has it, with the number of such rows. *)
Definition count_by_status (rows : list job_row) : gmap string Z :=
  foldr (λ r counts, <[r_status r := default 0 (counts !! r_status r) + 1]> counts)
    ∅ rows.

(** [get_stats]: the counts by status, then the key [total] set to the
    number of rows. *)
Definition get_stats (d : db) : gmap string Z :=
  <["total" := Z.of_nat (length (jobs d))]> (count_by_status (jobs d)).

(** The ids of the stored events grow along the table and none is above
    the largest id ever given. *)
Definition ids_in_order (d : db) : Prop :=
  StronglySorted Z.lt (e_id <$> events d)
  ∧ Forall (λ i, 1 ≤ i ≤ events_seq d) (e_id <$> events d)
  ∧ 0 ≤ events_seq d.

Section Store.
(** Modelled from the spec: [DownloadEventType] of [downloader/models.py]
    is an enum of event tags whose members are not listed; any [PyEnum]. *)
Context {DownloadEventType : Type} `{!PyEnum DownloadEventType}.

(** [json.dumps] and [json.loads] of the standard library. The encoder
    gives a text for each of the values of [json], which hold nothing it
    rejects. The decoder returns a value or raises: [JSONDecodeError] on a
    text that is not JSON, [RecursionError] on a text nested too deep. *)
Variable json_dumps : json → string.
Variable json_loads : string → result json.

(** [SQLITE_LIMIT_VARIABLE_NUMBER] of the SQLite library in use: the
    largest number of parameters one statement takes. *)
Variable SQLITE_LIMIT_VARIABLE_NUMBER : Z.

(** Modelled from the spec: [DownloadEvent] of [downloader/models.py]. *)
Record DownloadEvent := {
  type : DownloadEventType;
  job_id : string;
  timestamp : string;
  payload : json
}.

Definition job_to_row (job : DownloadJob) : job_row := {|
  r_job_id := id job;
  r_url := url job;
  r_engine := engine job;
  r_status := value (status job);
  r_created_at := created_at job;
  r_started_at := started_at job;
  r_finished_at := finished_at job;
  r_total_items := total_items job;
  r_completed_items := completed_items job;
  r_failed_items := failed_items job;
  r_skipped_items := skipped_items job;
  r_output_folder := Some (output_folder job);
  r_error_message := error_message job;
  r_options_json := Some (json_dumps (options_snapshot job))
|}.

(** [INSERT OR REPLACE INTO jobs]: the row holding the key is deleted and
    the new row is inserted after the last one. *)
Definition insert_or_replace (d : db) (row : job_row) : db := {|
  jobs := filter (λ r, r_job_id r ≠ r_job_id row) (jobs d) ++ [row];
  events := events d;
  events_seq := events_seq d
|}.

(** [save_job]: the store it leaves, and [None] or the exception raised.
    The four counters are the integers among the parameters; when binding
    one raises, nothing is written. *)
Definition save_job (d : db) (job : DownloadJob) : db * result unit :=
  match bind_ints [total_items job; completed_items job;
                   failed_items job; skipped_items job] with
  | Ok _ => (insert_or_replace d (job_to_row job), Ok ())
  | Raise e => (d, Raise e)
  end.

(** [INSERT INTO events]. *)
Definition append_event (d : db) (event : DownloadEvent) : db :=
  let new_id := next_event_id d in {|
    jobs := jobs d;
    events := events d ++ [{|
      e_id := new_id;
      e_job_id := job_id event;
      e_timestamp := timestamp event;
      e_type := value (type event);
      e_payload_json := Some (json_dumps (payload event))
    |}];
    events_seq := new_id
  |}.

(** The text of a JSON column read back: [{}] when the column is NULL or
    empty, or when decoding raises [JSONDecodeError]; another exception of
    the decoder is not caught. *)
Definition load_json_column (column : option string) : result json :=
  match column with
  | Some text =>
      if PyStr.truthy text then
        match json_loads text with
        | Ok v => Ok v
        | Raise JSONDecodeError => Ok empty_dict
        | Raise e => Raise e
        end
      else Ok empty_dict
  | None => Ok empty_dict
  end.

(** [E(text)] for an enum [E]. *)
Definition enum_call {E} `{!PyEnum E} (text : string) : result E :=
  match of_value text with
  | Some e => Ok e
  | None => Raise (ValueError text)
  end.

Definition _row_to_job (row : job_row) : result DownloadJob :=
  options ← load_json_column (r_options_json row);
  st ← enum_call (E:=JobStatus) (r_status row);
  Ok {|
    id := r_job_id row;
    url := r_url row;
    engine := r_engine row;
    status := st;
    created_at := r_created_at row;
    started_at := r_started_at row;
    finished_at := r_finished_at row;
    total_items := r_total_items row;
    completed_items := r_completed_items row;
    failed_items := r_failed_items row;
    skipped_items := r_skipped_items row;
    output_folder := default "" (r_output_folder row);
    error_message := r_error_message row;
    options_snapshot := options
  |}.

Definition _row_to_event (row : event_row) : result DownloadEvent :=
  payload ← load_json_column (e_payload_json row);
  ty ← enum_call (E:=DownloadEventType) (e_type row);
  Ok {|
    type := ty;
    job_id := e_job_id row;
    timestamp := e_timestamp row;
    payload := payload
  |}.

(** [SELECT * FROM jobs WHERE job_id = ?] and [fetchone]. *)
Definition select_job (d : db) (job_id : string) : option job_row :=
  head (filter (λ r, r_job_id r = job_id) (jobs d)).

Definition get_job (d : db) (job_id : string) : result (option DownloadJob) :=
  match select_job d job_id with
  | Some row => job ← _row_to_job row; Ok (Some job)
  | None => Ok None
  end.

(** [SELECT * FROM jobs [WHERE status = ?] ORDER BY created_at DESC
    LIMIT ? OFFSET ?]. *)
Definition select_jobs (d : db)
    (limit : Z) (status : option JobStatus) (offset : Z) : list job_row :=
  let rows :=
    match status with
    | Some st => filter (λ r, r_status r = value st) (jobs d)
    | None => jobs d
    end in
  sql_limit limit (sql_offset offset
    (order_by (λ a b, text_le (r_created_at b) (r_created_at a)) rows)).

Definition list_jobs (d : db)
    (limit : Z) (status : option JobStatus) (offset : Z)
  : result (list DownloadJob) :=
  bind_ints [limit; offset];;
  comprehension _row_to_job (select_jobs d limit status offset).

(** [SELECT * FROM events WHERE job_id = ? ORDER BY timestamp ASC LIMIT ?]. *)
Definition select_job_events (d : db) (job_id : string) (limit : Z)
  : list event_row :=
  sql_limit limit
    (order_by (λ a b, text_le (e_timestamp a) (e_timestamp b))
       (filter (λ r, e_job_id r = job_id) (events d))).

Definition get_job_events (d : db) (job_id : string) (limit : Z)
  : result (list DownloadEvent) :=
  bind_ints [limit];;
  comprehension _row_to_event (select_job_events d job_id limit).

(** The default values of the [limit] and [keep_last] arguments. *)
Definition list_jobs_limit : Z := 200.
Definition get_job_events_limit : Z := 1000.
Definition clear_completed_jobs_keep_last : Z := 100.

(** Returns the database and whether the last [DELETE] removed a row. *)
Definition delete_job (d : db) (job_id : string) : db * bool :=
  ({| jobs := filter (λ r, r_job_id r ≠ job_id) (jobs d);
      events := filter (λ r, e_job_id r ≠ job_id) (events d);
      events_seq := events_seq d |},
   bool_decide (Exists (λ r, r_job_id r = job_id) (jobs d))).

(** [SELECT job_id FROM jobs WHERE status = ? ORDER BY finished_at DESC
    LIMIT -1 OFFSET ?], the rows [clear_completed_jobs] deletes. *)
Definition select_completed_beyond (d : db) (keep_last : Z) : list job_row :=
  sql_limit (-1) (sql_offset keep_last
    (order_by (λ a b, nullable_le (r_finished_at b) (r_finished_at a))
       (filter (λ r, r_status r = value COMPLETED) (jobs d)))).

(** The two [DELETE ... WHERE job_id IN (?,...)] statements. *)
Definition delete_jobs (d : db) (job_ids : list string) : db := {|
  jobs := filter (λ r, r_job_id r ∉ job_ids) (jobs d);
  events := filter (λ r, e_job_id r ∉ job_ids) (events d);
  events_seq := events_seq d
|}.

(** [clear_completed_jobs]: the store it leaves, and the number returned
    or the exception raised. Each [DELETE] has one parameter for each id:
    with more ids than a statement takes parameters the first [DELETE]
    raises [OperationalError] (too many SQL variables), and nothing is
    deleted. *)
Definition clear_completed_jobs (d : db) (keep_last : Z) : db * result Z :=
  match bind_ints [keep_last] with
  | Ok _ =>
      let job_ids := r_job_id <$> select_completed_beyond d keep_last in
      match job_ids with
      | [] => (d, Ok 0)
      | _ :: _ =>
          if bool_decide (Z.of_nat (length job_ids) ≤ SQLITE_LIMIT_VARIABLE_NUMBER)
          then (delete_jobs d job_ids, Ok (Z.of_nat (length job_ids)))
          else (d, Raise OperationalError)
      end
  | Raise e => (d, Raise e)
  end.

(** The calls that write to the store, and a store after one of them. *)
Inductive write :=
| SaveJob (job : DownloadJob)
| AppendEvent (event : DownloadEvent)
| DeleteJob (job_id : string)
| ClearCompletedJobs (keep_last : Z).

(** The text a write stores, if it stores one, is a text the decoder
    takes or rejects. *)
Definition decodable (w : write) : Prop :=
  match w with
  | SaveJob job =>
      ∃ v, load_json_column (Some (json_dumps (options_snapshot job))) = Ok v
  | AppendEvent event =>
      ∃ v, load_json_column (Some (json_dumps (payload event))) = Ok v
  | DeleteJob _ | ClearCompletedJobs _ => True
  end.

Definition run_write (d : db) (w : write) : db :=
  match w with
  | SaveJob job => (save_job d job).1
  | AppendEvent event => append_event d event
  | DeleteJob job_id => (delete_job d job_id).1
  | ClearCompletedJobs keep_last => (clear_completed_jobs d keep_last).1
  end.

(** *** The vocabulary of the properties *)

(** Reading a JSON column returns: the decoder takes the text or rejects
    it with [JSONDecodeError]. *)
Definition readable (column : option string) : Prop :=
  ∃ v, load_json_column column = Ok v.

(** The value a JSON column is read as, when reading it returns. *)
Definition column_value (column : option string) : json :=
  match load_json_column column with
  | Ok v => v
  | Raise _ => empty_dict
  end.

(** An event as it is read back: the payload has gone through the
    encoder and the decoder. *)
Definition read_back (ev : DownloadEvent) : DownloadEvent := {|
  type := type ev;
  job_id := job_id ev;
  timestamp := timestamp ev;
  payload := column_value (Some (json_dumps (payload ev)))
|}.

(** The row [row] holds the event [ev]. *)
Definition holds (row : event_row) (ev : DownloadEvent) : Prop :=
  e_job_id row = job_id ev
  ∧ e_timestamp row = timestamp ev
  ∧ e_type row = value (type ev)
  ∧ e_payload_json row = Some (json_dumps (payload ev)).

(** The job as [get_job] gives it back: its options snapshot has gone
    through the encoder and the decoder. *)
Definition reloaded (job : DownloadJob) : DownloadJob := {|
  id := id job;
  url := url job;
  engine := engine job;
  status := status job;
  created_at := created_at job;
  started_at := started_at job;
  finished_at := finished_at job;
  total_items := total_items job;
  completed_items := completed_items job;
  failed_items := failed_items job;
  skipped_items := skipped_items job;
  output_folder := output_folder job;
  error_message := error_message job;
  options_snapshot :=
    column_value (Some (json_dumps (options_snapshot job)))
|}.

(** The job a row of [jobs] is read as when its status text stands for
    [st] and its options text is read as [options], and the same for a row
    of [events]. *)
Definition job_of_row (row : job_row) (st : JobStatus) (options : json)
  : DownloadJob := {|
  id := r_job_id row;
  url := r_url row;
  engine := r_engine row;
  status := st;
  created_at := r_created_at row;
  started_at := r_started_at row;
  finished_at := r_finished_at row;
  total_items := r_total_items row;
  completed_items := r_completed_items row;
  failed_items := r_failed_items row;
  skipped_items := r_skipped_items row;
  output_folder := default "" (r_output_folder row);
  error_message := r_error_message row;
  options_snapshot := options
|}.

Definition event_of_row (row : event_row) (ty : DownloadEventType) (payload : json)
  : DownloadEvent := {|
  type := ty;
  job_id := e_job_id row;
  timestamp := e_timestamp row;
  payload := payload
|}.

(** The text of a JSON column that the decoder rejects. *)
Definition malformed (column : option string) : Prop :=
  ∃ text, column = Some text ∧ json_loads text = Raise JSONDecodeError.

(** The completed rows, most recently finished first. *)
Definition completed_latest_first (d : db) : list job_row :=
  order_by (λ a b, nullable_le (r_finished_at b) (r_finished_at a))
    (filter (λ r, r_status r = value COMPLETED) (jobs d)).

End Store.

Arguments DownloadEvent : clear implicits.
Arguments write : clear implicits.
End History.

(** ** The scheduler's persisted table *)

Module Scheduler.

Inductive ScheduleType := ONCE | DAILY | WEEKLY | INTERVAL.

(** Modelled from the spec: [ScheduledJob] of [downloader/scheduler.py],
    which is not among the sources; the fields are those of the spec's data
    model and of the constructor calls in [tests/test_scheduler.py].
    [scheduled_time] is the reference timestamp. *)
Record ScheduledJob := {
  job_id : string;
  urls : list string;
  schedule_type : ScheduleType;
  scheduled_time : Z;
  interval_minutes : Z;
  enabled : bool
}.

(** The files that hold scheduler tables: a path gives the table stored
    there, keyed by job id. A path without a file has no entry. *)
Abbreviation stores := (gmap string (gmap string ScheduledJob)).

(** Modelled from the spec: a [DownloadScheduler] instance. It holds the
    path of its store, the state of its loop and the events its callback
    received; it keeps no copy of the table. *)
Record DownloadScheduler := {
  db_path : string;
  running : bool;
  emitted : list (string * string * string)
}.

(** Modelled from the spec: constructing a scheduler on a path creates the
    table when the store has none and leaves an existing table as it is;
    the loop is stopped. *)
Definition new_scheduler (path : string) (fs : stores)
  : DownloadScheduler * stores :=
  ({| db_path := path; running := false; emitted := [] |},
   match fs !! path with
   | Some _ => fs
   | None => <[path := ∅]> fs
   end).

(** The table a scheduler reads and writes. *)
Definition table (s : DownloadScheduler) (fs : stores) : gmap string ScheduledJob :=
  default ∅ (fs !! db_path s).

(** Modelled from the spec: an interval job needs a positive interval. *)
Definition valid_job (job : ScheduledJob) : bool :=
  match schedule_type job with
  | INTERVAL => 0 <? interval_minutes job
  | _ => true
  end.

(** Modelled from the spec: [schedule_job] rejects a malformed job, and
    otherwise persists the record under its id (an upsert), emits
    [SCHEDULED] through the callback and returns the id. *)
Definition schedule_job (s : DownloadScheduler) (job : ScheduledJob) (fs : stores)
  : option string * DownloadScheduler * stores :=
  if valid_job job then
    (Some (job_id job),
     {| db_path := db_path s; running := running s;
        emitted := emitted s ++ [("SCHEDULED", job_id job, "")] |},
     <[db_path s := <[job_id job := job]> (table s fs)]> fs)
  else (None, s, fs).

(** Modelled from the spec: [get_all_jobs] and [get_job] read the
    persisted table. *)
Definition get_all_jobs (s : DownloadScheduler) (fs : stores) : list ScheduledJob :=
  (map_to_list (table s fs)).*2.

Definition get_job (s : DownloadScheduler) (id : string) (fs : stores)
  : option ScheduledJob :=
  table s fs !! id.

End Scheduler.

(** ** [app/window/pages/settings.py] *)

Module Settings.

(** The rows of [self.tab_names]: the name of a tab and whether it is an
    advanced one. The render function of a row is a method of the settings
    helper, which is not among the sources; it fills the tab and does not
    touch [self.tabs]. *)
Definition tab_names : list (string * bool) :=
  [("General", false); ("Downloads", false); ("Structure", false);
   ("Universal", false); ("Database", false); ("Cookies", true);
   ("Scraper", true); ("Network", true); ("Filters", true); ("Logging", true)].

(** [not is_advanced or self.app.advanced_mode]. *)
Definition shown (advanced_mode : bool) (entry : string * bool) : bool :=
  negb entry.2 || advanced_mode.

(** The first loop of [refresh_tabs]. *)
Definition should_show (advanced_mode : bool) : list string :=
  (filter (λ entry, shown advanced_mode entry) tab_names).*1.

(** The second loop: the tabs that are not to be shown are deleted. The
    dict [self.tabs] is the list of its keys in insertion order. *)
Definition remove_tabs (advanced_mode : bool) (tabs : list string) : list string :=
  filter (λ name, name ∈ should_show advanced_mode) tabs.

(** The third loop: a tab to be shown that is not there is added last. *)
Definition add_tabs (advanced_mode : bool) (tabs : list string) : list string :=
  foldl (λ tabs entry,
           if shown advanced_mode entry && bool_decide (entry.1 ∉ tabs)
           then tabs ++ [entry.1] else tabs)
    tabs tab_names.

Definition refresh_tabs (advanced_mode : bool) (tabs : list string) : list string :=
  add_tabs advanced_mode (remove_tabs advanced_mode tabs).

End Settings.

(** ** [validate_install.py] and [install.py]

    The messages the scripts print are left out; the values they return are
    functions of what they find on the machine. *)

Module ValidateInstall.

(** What the checks look at: [sys.version_info] (major and minor), whether
    [importlib.util.find_spec] finds a module, and whether a path exists. *)
Record Machine := {
  version_info : Z * Z;
  find_spec : string → bool;
  path_exists : string → bool
}.

Definition check_module (m : Machine) (module_name : string) (optional : bool) : bool :=
  if find_spec m module_name then true else negb optional.

Definition check_file (m : Machine) (filepath : string) : bool :=
  path_exists m filepath.

(** [sys.version_info >= (3, 8)], a comparison of tuples. *)
Definition python_ok (m : Machine) : bool :=
  (3 <? (version_info m).1)
  || (((version_info m).1 =? 3) && (8 <=? (version_info m).2)).

Definition core_modules : list (string * bool) :=
  [("requests", false); ("urllib3", false); ("bs4", false); ("PIL", false);
   ("psutil", false)].
Definition downloader_modules : list (string * bool) :=
  [("yt_dlp", false); ("gallery_dl", false); ("cloudscraper", false);
   ("selenium", true)].
Definition gui_modules : list (string * bool) :=
  [("tkinter", false); ("customtkinter", false); ("tkinterdnd2", false);
   ("tkinterweb", true); ("markdown2", true)].
Definition web_modules : list (string * bool) :=
  [("fastapi", true); ("uvicorn", true); ("pydantic", true);
   ("websockets", true); ("sqlalchemy", true)].
Definition files : list string :=
  ["main.py"; "requirements.txt"; "README.md"; "downloader/factory.py"; "app/ui.py"].

(** The flag [gui_available], which only selects messages. *)
Definition gui_available (m : Machine) : bool :=
  foldl (λ available entry,
           if check_module m entry.1 entry.2 then available
           else if entry.2 then available else false)
    true gui_modules.

(** The flag [web_available], which only selects messages. *)
Definition web_available (m : Machine) : bool :=
  foldl (λ available entry, if check_module m entry.1 true then available else false)
    true web_modules.

(** [main]: the exit status. *)
Definition main (m : Machine) : Z :=
  let all_ok := if python_ok m then true else false in
  let all_ok :=
    foldl (λ ok entry, if check_module m entry.1 entry.2 then ok else false)
      all_ok core_modules in
  let all_ok :=
    foldl (λ ok entry, if check_module m entry.1 entry.2 then ok else false)
      all_ok downloader_modules in
  let all_ok :=
    foldl (λ ok filepath, if check_file m filepath then ok else false)
      all_ok files in
  if all_ok then 0 else 1.

End ValidateInstall.

Module Install.

(** [check_python_version] on [sys.version_info]. *)
Definition check_python_version (version : Z * Z) : bool :=
  if (version.1 <? 3) || ((version.1 =? 3) && (version.2 <? 8)) then false else true.

End Install.

(** ** Concrete handlers, events and decoders

    The two handler classes of [tests/test_factory.py], and a small instance
    of the parameters of the history store, on which the operations are
    evaluated. *)

Module Fixtures.
Import Base.

Inductive TestClass := DummyDownloader | AnotherDummyDownloader.

Global Instance TestClass_eq_dec : EqDecision TestClass.
Proof. solve_decision. Defined.

(** [DummyDownloader] supports the URLs containing [dummy] and
    [AnotherDummyDownloader] those containing [another]. *)
Global Instance TestClass_contract : HandlerContract unit TestClass := {|
  abstractmethods cls := [];
  supports_url cls self url :=
    match cls with
    | DummyDownloader => PyStr.contains "dummy" (PyStr.lower url)
    | AnotherDummyDownloader => PyStr.contains "another" (PyStr.lower url)
    end;
  get_site_name cls self :=
    match cls with
    | DummyDownloader => "DummySite"
    | AnotherDummyDownloader => "AnotherSite"
    end
|}.

(** The class that [downloader/simpcity.py] registers when it is
    imported. No instance of it exists, so [get_site_name], which the class
    does not define, is never called. *)
Inductive ShippedClass := SimpCityClass.

Global Instance ShippedClass_eq_dec : EqDecision ShippedClass.
Proof. solve_decision. Defined.

Global Instance ShippedClass_contract : HandlerContract unit ShippedClass := {|
  abstractmethods cls := SimpCity.__abstractmethods__;
  supports_url cls self url := SimpCity.supports_url (Some url);
  get_site_name cls self := EmptyString
|}.

(** An environment in which the yt-dlp adapter cannot be imported and the
    generic scraper can. *)
Definition no_ytdlp : Factory.Modules unit unit :=
  {| Factory.ytdlp_adapter := None; Factory.generic_module := true |}.

(** The default options with a minimum file size, and an image of a given
    size. *)
Definition options_with_min (min_file_size : Z) : DownloadOptions := {|
  download_images := true;
  download_videos := true;
  download_compressed := true;
  download_documents := true;
  max_retries := 3;
  retry_interval := 2000;
  chunk_size := 1048576;
  timeout := 30;
  min_file_size := min_file_size;
  max_file_size := 0;
  date_from := None;
  date_to := None
|}.

Definition image_of_size (size : option Z) : MediaItem := {|
  url := "https://example.com/photo.jpg";
  filename := "photo.jpg";
  file_type := "image";
  size := size;
  post_id := None;
  user_id := None;
  published_date := None
|}.

(** Three event tags. *)
Inductive EventTag := PROGRESS | LOG | STATUS_CHANGE.

Global Program Instance EventTag_enum : History.PyEnum EventTag := {|
  History.value t :=
    match t with
    | PROGRESS => "progress"
    | LOG => "log"
    | STATUS_CHANGE => "status_change"
    end;
  History.of_value s :=
    if bool_decide (s = "progress") then Some PROGRESS
    else if bool_decide (s = "log") then Some LOG
    else if bool_decide (s = "status_change") then Some STATUS_CHANGE
    else None
|}.
Next Obligation. by intros []. Qed.

(** A text of a thousand opening brackets, on which [json.loads] raises
    [RecursionError]. *)
Definition deep_text : string :=
  String.string_of_list_ascii (replicate 1000 "["%char).

(** An encoder and a decoder for the values without content: the empty
    dict, the empty list and [null]. The encoder writes every other value as
    the empty dict; the decoder raises [RecursionError] on [deep_text] and
    rejects every other text. *)
Definition dumps (v : History.json) : string :=
  match v with
  | History.JNull => "null"
  | History.JList [] => "[]"
  | _ => "{}"
  end.

Definition loads (text : string) : Py.result History.json :=
  if bool_decide (text = "{}") then Py.Ok History.empty_dict
  else if bool_decide (text = "[]") then Py.Ok (History.JList [])
  else if bool_decide (text = "null") then Py.Ok History.JNull
  else if bool_decide (text = deep_text) then Py.Raise Py.RecursionError
  else Py.Raise Py.JSONDecodeError.

(** The default of [SQLITE_LIMIT_VARIABLE_NUMBER] before SQLite 3.32. *)
Definition variable_number : Z := 999.

(** A log event of a job at a time. *)
Definition log_event (job_id timestamp : string) : History.DownloadEvent EventTag := {|
  History.type := LOG;
  History.job_id := job_id;
  History.timestamp := timestamp;
  History.payload := History.empty_dict
|}.

(** Three appends, two of them for [job-1] and out of order. *)
Definition three_events : list (History.DownloadEvent EventTag) :=
  [log_event "job-1" "2024-01-02T08:00:00";
   log_event "job-2" "2024-01-01T12:00:00";
   log_event "job-1" "2024-01-01T08:00:00"].

(** One more append for [job-1] than the default limit of
    [get_job_events]. *)
Definition many_events : list (History.DownloadEvent EventTag) :=
  replicate 1001 (log_event "job-1" "2024-01-01T08:00:00").

(** A job of a given id and status that finished at a given time. *)
Definition job_of (id : string) (status : History.JobStatus)
    (finished_at : option string) : History.DownloadJob := {|
  History.id := id;
  History.url := "https://example.com/gallery";
  History.engine := "DummySite";
  History.status := status;
  History.created_at := "2024-01-01T00:00:00";
  History.started_at := Some "2024-01-01T00:00:01";
  History.finished_at := finished_at;
  History.total_items := 3;
  History.completed_items := 3;
  History.failed_items := 0;
  History.skipped_items := 0;
  History.output_folder := "/downloads";
  History.error_message := None;
  History.options_snapshot := History.empty_dict
|}.

(** A store with the three events above, three completed jobs and a
    failed one. *)
Definition retention_db : History.db :=
  foldl (λ d job, (History.save_job dumps d job).1)
    (foldl (History.append_event dumps) History.empty_db three_events)
    [job_of "job-1" History.COMPLETED (Some "2024-01-01T09:00:00");
     job_of "job-2" History.COMPLETED (Some "2024-01-03T09:00:00");
     job_of "job-3" History.FAILED (Some "2024-01-04T09:00:00");
     job_of "job-4" History.COMPLETED (Some "2024-01-02T09:00:00")].

(** A row of [jobs] with a given status text and options text. *)
Definition row_with (status : string) (options_json : string) : History.job_row := {|
  History.r_job_id := "job-9";
  History.r_url := "https://example.com/gallery";
  History.r_engine := "DummySite";
  History.r_status := status;
  History.r_created_at := "2024-01-01T00:00:00";
  History.r_started_at := None;
  History.r_finished_at := None;
  History.r_total_items := 0;
  History.r_completed_items := 0;
  History.r_failed_items := 0;
  History.r_skipped_items := 0;
  History.r_output_folder := None;
  History.r_error_message := None;
  History.r_options_json := Some options_json
|}.

(** A row whose options text is cut short, a row whose options text is
    nested too deep, and a row whose status is no status. *)
Definition cut_row : History.job_row := row_with "completed" "{".
Definition deep_row : History.job_row := row_with "completed" deep_text.
Definition odd_row : History.job_row := row_with "done" "{".

(** A store that holds one row. *)
Definition store_of (row : History.job_row) : History.db :=
  {| History.jobs := [row]; History.events := []; History.events_seq := 0 |}.

(** A job with a counter that does not fit a column. *)
Definition huge_job : History.DownloadJob := {|
  History.id := "job-8";
  History.url := "https://example.com/gallery";
  History.engine := "DummySite";
  History.status := History.DOWNLOADING;
  History.created_at := "2024-01-01T00:00:00";
  History.started_at := None;
  History.finished_at := None;
  History.total_items := 2 ^ 63;
  History.completed_items := 0;
  History.failed_items := 0;
  History.skipped_items := 0;
  History.output_folder := "/downloads";
  History.error_message := None;
  History.options_snapshot := History.empty_dict
|}.

(** The job of [test_job_persistence]. *)
Definition persist_job : Scheduler.ScheduledJob := {|
  Scheduler.job_id := "test-persist";
  Scheduler.urls := ["https://example.com/persist"];
  Scheduler.schedule_type := Scheduler.ONCE;
  Scheduler.scheduled_time := 1704096060;
  Scheduler.interval_minutes := 0;
  Scheduler.enabled := true
|}.

End Fixtures.

(** * Properties *)

(** ** Filename sanitization *)

Lemma sanitize_char_idemp (c : ascii) :
  Base.sanitize_char (Base.sanitize_char c) = Base.sanitize_char c.
Proof.
  unfold Base.sanitize_char.
  destruct (bool_decide (c ∈ Base.invalid_chars)) eqn:Hc; [by vm_compute|by rewrite Hc].
Qed.

(** C10: sanitizing a sanitized filename changes nothing, since the
    underscore that replaces the nine invalid characters is not one of them
    and every other character is kept. *)
Theorem sanitize_filename_idempotent (s : string) :
  Base.sanitize_filename (Base.sanitize_filename s) = Base.sanitize_filename s.
Proof.
  unfold Base.sanitize_filename.
  induction s as [|c s IH]; simpl; [done|].
  by rewrite sanitize_char_idemp, IH.
Qed.

(** ** The handler registry and selector *)

Section FactoryProperties.
Import Py Base Factory.
Context {Callback : Type} {C : Type} `{EqDecision C}.
Context `{!HandlerContract Callback C} {YtDlpOptions : Type}.

Implicit Types (env : Modules Callback YtDlpOptions) (classes : registry C).
Implicit Types (url folder : string) (options : option DownloadOptions).
Implicit Types (kwargs : Kwargs Callback) (c : C).
Implicit Types (d : Downloader Callback C YtDlpOptions).

Lemma register_present classes c : c ∈ classes → register classes c = classes.
Proof. intros Hin. unfold register. by rewrite bool_decide_eq_true_2. Qed.

Lemma register_elem classes c : c ∈ register classes c.
Proof. unfold register. case_bool_decide; set_solver. Qed.

Lemma register_prefix classes c : classes `prefix_of` register classes c.
Proof.
  unfold register. case_bool_decide; [done|]. by apply prefix_app_r.
Qed.

(** C9: registering a class twice gives the registry that registering it
    once gives, hence the same number of classes and the same list of
    supported sites; a registration of a class already present changes
    nothing, and every registration keeps the classes registered before at
    the front, in their order. *)
Theorem register_idempotent env classes c :
  register (register classes c) c = register classes c
  ∧ length (register (register classes c) c) = length (register classes c)
  ∧ get_supported_sites env (register (register classes c) c)
    = get_supported_sites env (register classes c)
  ∧ (c ∈ classes → register classes c = classes)
  ∧ classes `prefix_of` register classes c
  ∧ classes `prefix_of` register (register classes c) c.
Proof.
  assert (register (register classes c) c = register classes c) as Heq
    by apply register_present, register_elem.
  rewrite Heq. split_and!; try done.
  - apply register_present.
  - apply register_prefix.
  - apply register_prefix.
Qed.

Lemma instantiate_Ok c folder options kwargs :
  instantiable c → instantiate c folder options kwargs = Ok (__init__ folder options kwargs).
Proof. unfold instantiable, instantiate. by intros ->. Qed.

Lemma instantiate_Raise c folder options kwargs :
  ¬ instantiable c →
  instantiate c folder options kwargs = Raise TypeError.
Proof. unfold instantiable, instantiate. by destruct (abstractmethods c). Qed.

(** The loop falls through exactly when every class can be instantiated
    and none supports the URL. *)
Lemma native_downloader_None classes url folder options kwargs :
  native_downloader (YtDlpOptions:=YtDlpOptions)
    classes url folder options kwargs = Ok None ↔
  Forall (λ c, instantiable c
               ∧ supports_url c (__init__ folder options kwargs) url = false) classes.
Proof.
  induction classes as [|c0 classes IH]; simpl; [done|].
  rewrite Forall_cons. destruct (decide (instantiable c0)) as [Hc0|Hc0].
  - rewrite instantiate_Ok by done. simpl.
    destruct (supports_url c0 _ url); [|rewrite IH]; naive_solver.
  - rewrite instantiate_Raise by done. naive_solver.
Qed.

(** The loop returns the first class whose instance supports the URL, when
    the classes before it and the class itself can be instantiated. *)
Lemma native_downloader_Some classes url folder options kwargs d :
  native_downloader classes url folder options kwargs = Ok (Some d) ↔
  ∃ before c after,
    classes = before ++ c :: after
    ∧ Forall (λ c', instantiable c'
                    ∧ supports_url c' (__init__ folder options kwargs) url = false) before
    ∧ instantiable c
    ∧ supports_url c (__init__ folder options kwargs) url = true
    ∧ d = NativeInstance c (__init__ folder options kwargs).
Proof.
  induction classes as [|c0 classes IH]; simpl.
  - split; [done|]. intros (before & c & after & Heq & _). by destruct before.
  - destruct (decide (instantiable c0)) as [Hi|Hi].
    + rewrite instantiate_Ok by done. simpl.
      destruct (supports_url c0 _ url) eqn:Hc0.
      * split.
        -- intros [= <-]. exists [], c0, classes. by split_and!.
        -- intros (before & c & after & Heq & Hbefore & _ & Hc & ->).
           destruct before as [|b before]; simplify_eq/=; [done|].
           apply Forall_cons in Hbefore as [[_ ?] _]. congruence.
      * rewrite IH. split.
        -- intros (before & c & after & -> & Hbefore & Hic & Hc & ->).
           exists (c0 :: before), c, after. split_and!; try done.
           by apply Forall_cons.
        -- intros (before & c & after & Heq & Hbefore & Hic & Hc & ->).
           destruct before as [|b before]; simplify_eq/=; [congruence|].
           apply Forall_cons in Hbefore as [_ ?]. by exists before, c, after.
    + rewrite instantiate_Raise by done. split; [done|].
      intros (before & c & after & Heq & Hbefore & Hic & Hc & ->).
      destruct before as [|b before]; simplify_eq/=; [done|].
      by apply Forall_cons in Hbefore as [[? _] _].
Qed.

(** The loop raises exactly when it reaches a class that cannot be
    instantiated before a class that supports the URL. *)
Lemma native_downloader_Raise classes url folder options kwargs e :
  native_downloader (YtDlpOptions:=YtDlpOptions)
    classes url folder options kwargs = Raise e ↔
  ∃ before c after,
    classes = before ++ c :: after
    ∧ Forall (λ c', instantiable c'
                    ∧ supports_url c' (__init__ folder options kwargs) url = false) before
    ∧ ¬ instantiable c
    ∧ e = TypeError.
Proof.
  induction classes as [|c0 classes IH]; simpl.
  - split; [done|]. intros (before & c & after & Heq & _). by destruct before.
  - destruct (decide (instantiable c0)) as [Hi|Hi].
    + rewrite instantiate_Ok by done. simpl.
      destruct (supports_url c0 _ url) eqn:Hc0.
      * split; [done|].
        intros (before & c & after & Heq & Hbefore & Hic & ->).
        destruct before as [|b before]; simplify_eq/=; [done|].
        apply Forall_cons in Hbefore as [[_ ?] _]. congruence.
      * rewrite IH. split.
        -- intros (before & c & after & -> & Hbefore & Hic & ->).
           exists (c0 :: before), c, after. split_and!; try done.
           by apply Forall_cons.
        -- intros (before & c & after & Heq & Hbefore & Hic & ->).
           destruct before as [|b before]; simplify_eq/=; [done|].
           apply Forall_cons in Hbefore as [_ ?]. by exists before, c, after.
    + rewrite instantiate_Raise by done. split.
      * intros [= <-]. exists [], c0, classes. by split_and!.
      * intros (before & c & after & Heq & Hbefore & Hic & ->). done.
Qed.

(** C1: for handler classes that can be instantiated, when some registered
    class supports the URL, [get_downloader] returns an instance of the
    first such class in registration order, built from the requested folder
    and options, whatever the fallback flags and the fallback modules
    are. *)
Theorem get_downloader_first_match env classes url folder options
    use_generic_fallback use_ytdlp_fallback ytdlp_options kwargs :
  Forall instantiable classes →
  (∃ c, c ∈ classes ∧ supports_url c (__init__ folder options kwargs) url = true) →
  ∃ before c after,
    classes = before ++ c :: after
    ∧ Forall (λ c', supports_url c' (__init__ folder options kwargs) url = false) before
    ∧ supports_url c (__init__ folder options kwargs) url = true
    ∧ get_downloader env classes url folder options
        use_generic_fallback use_ytdlp_fallback ytdlp_options kwargs
      = Ok (Some (NativeInstance c (__init__ folder options kwargs)))
    ∧ download_folder (__init__ folder options kwargs) = folder
    ∧ Base.options (__init__ folder options kwargs) = default default_options options.
Proof.
  intros Hinst (c0 & Hin & Hc0).
  destruct (native_downloader (YtDlpOptions:=YtDlpOptions)
              classes url folder options kwargs) as [[d|]|e] eqn:Hnat.
  - pose proof Hnat
      as (before & c & after & -> & Hbefore & _ & Hc & ->)%native_downloader_Some.
    exists before, c, after. unfold get_downloader. rewrite Hnat.
    split_and!; try done. eapply Forall_impl; [exact Hbefore|]. by intros ? [_ ?].
  - apply native_downloader_None in Hnat.
    rewrite Forall_forall in Hnat. destruct (Hnat _ Hin). congruence.
  - apply native_downloader_Raise in Hnat as (before & c & after & -> & _ & Hc & _).
    rewrite Forall_forall in Hinst. destruct Hc. apply Hinst. set_solver.
Qed.

(** C2, as amended: [get_downloader] returns [None] exactly when every
    registered class can be instantiated and none supports the URL, the
    yt-dlp fallback is disabled, cannot be imported or does not support the
    URL, and the generic fallback is disabled or cannot be imported; when
    the registered classes can be instantiated and the generic fallback is
    enabled and can be imported, a handler is returned for every URL. *)
Theorem get_downloader_None_iff env classes url folder options
    use_generic_fallback use_ytdlp_fallback ytdlp_options kwargs :
  (get_downloader env classes url folder options
     use_generic_fallback use_ytdlp_fallback ytdlp_options kwargs = Ok None
   ↔ Forall (λ c, instantiable c
                  ∧ supports_url c (__init__ folder options kwargs) url = false) classes
     ∧ (use_ytdlp_fallback = false
        ∨ ytdlp_adapter env = None
        ∨ ∃ ytdlp_supports_url,
            ytdlp_adapter env = Some ytdlp_supports_url
            ∧ ytdlp_supports_url (__init__ folder options kwargs) ytdlp_options url = false)
     ∧ (use_generic_fallback = false ∨ generic_module env = false))
  ∧ (Forall instantiable classes →
     use_generic_fallback = true → generic_module env = true →
     ∃ handler,
       get_downloader env classes url folder options
         use_generic_fallback use_ytdlp_fallback ytdlp_options kwargs
       = Ok (Some handler)).
Proof.
  unfold get_downloader, ytdlp_downloader, generic_downloader.
  rewrite <-native_downloader_None.
  destruct (native_downloader classes url folder options kwargs) as [[d|]|e] eqn:Hnat;
    simpl.
  - split; [naive_solver|eauto].
  - destruct use_ytdlp_fallback, (ytdlp_adapter env) as [f|];
      try destruct (f _ ytdlp_options url) eqn:Hf;
      destruct use_generic_fallback, (generic_module env);
      (split; [|intros; by eauto]); split;
      try (intros (_ & [?|[?|(g & ? & ?)]] & [?|?]); simplify_eq; congruence);
      intros; try done; split_and!; eauto 6.
  - split; [naive_solver|]. intros Hinst _ _.
    apply native_downloader_Raise in Hnat as (before & c & after & -> & _ & Hc & _).
    rewrite Forall_forall in Hinst. destruct Hc. apply Hinst. set_solver.
Qed.
End FactoryProperties.

(** The classes of [tests/test_factory.py], registered in the order of
    [test_get_downloader_first_match], and a URL only the second supports. *)
Lemma get_downloader_first_match_witness :
  ∃ before c after,
    [Fixtures.DummyDownloader; Fixtures.AnotherDummyDownloader] = before ++ c :: after
    ∧ Forall (λ c', Base.supports_url c'
                (Base.__init__ "/downloads" None Base.no_kwargs)
                "https://another.com/test" = false) before
    ∧ Base.supports_url c (Base.__init__ "/downloads" None Base.no_kwargs)
        "https://another.com/test" = true
    ∧ Factory.get_downloader Fixtures.no_ytdlp
        [Fixtures.DummyDownloader; Fixtures.AnotherDummyDownloader]
        "https://another.com/test" "/downloads" None true true None Base.no_kwargs
      = Py.Ok (Some (Factory.NativeInstance c
                       (Base.__init__ "/downloads" None Base.no_kwargs)))
    ∧ Base.download_folder (Base.__init__ (Callback:=unit) "/downloads" None Base.no_kwargs)
      = "/downloads"
    ∧ Base.options (Base.__init__ (Callback:=unit) "/downloads" None Base.no_kwargs)
      = Base.default_options.
Proof.
  apply (get_downloader_first_match Fixtures.no_ytdlp
           [Fixtures.DummyDownloader; Fixtures.AnotherDummyDownloader]
           "https://another.com/test" "/downloads" None true true None Base.no_kwargs).
  - by repeat constructor.
  - exists Fixtures.AnotherDummyDownloader. split.
    + apply list_elem_of_further, list_elem_of_here.
    + reflexivity.
Defined.

(** C2, as stated, fails: with the yt-dlp fallback enabled but its adapter
    not importable, and the generic fallback disabled, a URL no registered
    class supports gets no handler although one fallback is enabled. *)
Lemma get_downloader_None_with_ytdlp_enabled :
  let use_generic_fallback := false in
  let use_ytdlp_fallback := true in
  Factory.get_downloader Fixtures.no_ytdlp [Fixtures.DummyDownloader]
    "https://unsupported.com/test" "/downloads" None
    use_generic_fallback use_ytdlp_fallback None Base.no_kwargs = Py.Ok None
  ∧ ¬ (use_generic_fallback = false ∧ use_ytdlp_fallback = false).
Proof. split; [reflexivity|]. by intros [_ ?]. Qed.

Lemma get_downloader_None_iff_witness :
  ∃ handler,
    Factory.get_downloader Fixtures.no_ytdlp [Fixtures.DummyDownloader]
      "https://unsupported.com/test" "/downloads" None
      true true None Base.no_kwargs = Py.Ok (Some handler).
Proof.
  apply (get_downloader_None_iff Fixtures.no_ytdlp [Fixtures.DummyDownloader]
           "https://unsupported.com/test" "/downloads" None
           true true None Base.no_kwargs); [by repeat constructor|reflexivity..].
Defined.

(** The registry that importing [downloader/simpcity.py] builds holds a
    class that cannot be instantiated: the selector raises [TypeError] on
    it, for a URL the class supports as for any other. *)
Lemma get_downloader_shipped_registry (url : string) :
  Factory.get_downloader Fixtures.no_ytdlp (Factory.register [] Fixtures.SimpCityClass)
    url "/downloads" None true true None Base.no_kwargs
  = Py.Raise Py.TypeError.
Proof. reflexivity. Qed.

Lemma register_idempotent_witness :
  Factory.register [Fixtures.DummyDownloader] Fixtures.DummyDownloader
  = [Fixtures.DummyDownloader].
Proof.
  apply (register_idempotent Fixtures.no_ytdlp
           [Fixtures.DummyDownloader] Fixtures.DummyDownloader).
  apply list_elem_of_here.
Defined.

(** ** The download filters *)

Section Filters.
Import Base.
Implicit Types (options : DownloadOptions) (item : MediaItem).

Lemma should_download_file_disabled options item :
  toggle_disabled options item → should_download_file options item = false.
Proof.
  unfold toggle_disabled, should_download_file.
  intros [[-> ->]|[[-> ->]|[[-> ->]|[-> ->]]]]; simpl;
    repeat (case_bool_decide; simplify_eq/=; try done);
    repeat (destruct (_ options); simpl; try done); reflexivity.
Qed.

(** Once the type filter lets the item through, the result is that of the
    size filters. *)
Lemma should_download_file_enabled options item :
  ¬ toggle_disabled options item →
  should_download_file options item =
    if truthy_size (size item) then
      negb ((0 <? min_file_size options)
            && (default 0 (size item) <? min_file_size options))
      && negb ((0 <? max_file_size options)
               && (max_file_size options <? default 0 (size item)))
    else true.
Proof.
  unfold toggle_disabled, should_download_file. intros Hen.
  repeat match goal with
  | |- context [bool_decide (?x = ?y) && negb ?b] =>
      destruct (decide (x = y));
      [rewrite (bool_decide_eq_true_2 (x = y)) by done;
       destruct b eqn:?; simpl; [|exfalso; apply Hen; by eauto 10]
      |rewrite (bool_decide_eq_false_2 (x = y)) by done; simpl]
  end;
  destruct (truthy_size (size item)); try done;
  by repeat (destruct (_ <? _); simpl).
Qed.

(** C3, as amended: the filters apply in order. An item whose type has its
    toggle off is rejected; otherwise an item of known, non-zero size is
    rejected when a positive minimum is above its size or a positive
    maximum is below it, and accepted when neither is; an item of unknown
    size, or of size 0, passes both size filters. A 500-byte item is
    rejected with a minimum of 1000 bytes, and accepted with no minimum
    and no maximum when its type is enabled. *)
Theorem should_download_file_filters options item :
  (toggle_disabled options item → should_download_file options item = false)
  ∧ (∀ sz, ¬ toggle_disabled options item → size item = Some sz → sz ≠ 0 →
       0 < min_file_size options → sz < min_file_size options →
       should_download_file options item = false)
  ∧ (∀ sz, ¬ toggle_disabled options item → size item = Some sz → sz ≠ 0 →
       0 < max_file_size options → max_file_size options < sz →
       should_download_file options item = false)
  ∧ (∀ sz, ¬ toggle_disabled options item → size item = Some sz →
       (min_file_size options ≤ 0 ∨ min_file_size options ≤ sz) →
       (max_file_size options ≤ 0 ∨ sz ≤ max_file_size options) →
       should_download_file options item = true)
  ∧ (¬ toggle_disabled options item → size item = None ∨ size item = Some 0 →
       should_download_file options item = true)
  ∧ (size item = Some 500 → min_file_size options = 1000 →
       should_download_file options item = false)
  ∧ (¬ toggle_disabled options item → size item = Some 500 →
       min_file_size options = 0 → max_file_size options = 0 →
       should_download_file options item = true).
Proof.
  split_and!.
  - apply should_download_file_disabled.
  - intros sz Hen Hsz ???. rewrite should_download_file_enabled, Hsz by done.
    simpl. rewrite (proj2 (Z.eqb_neq _ _)) by done. simpl.
    rewrite (proj2 (Z.ltb_lt 0 _)), (proj2 (Z.ltb_lt sz _)) by done. done.
  - intros sz Hen Hsz ???. rewrite should_download_file_enabled, Hsz by done.
    simpl. rewrite (proj2 (Z.eqb_neq _ _)) by done. simpl.
    rewrite (proj2 (Z.ltb_lt 0 (max_file_size _))), (proj2 (Z.ltb_lt _ sz)) by done.
    simpl. by rewrite andb_false_r.
  - intros sz Hen Hsz Hmin Hmax.
    rewrite should_download_file_enabled, Hsz by done. simpl.
    destruct (sz =? 0); simpl; [done|].
    apply andb_true_iff; split; apply negb_true_iff, andb_false_iff.
    + destruct Hmin; [left; by apply Z.ltb_ge|right; by apply Z.ltb_ge].
    + destruct Hmax; [left; by apply Z.ltb_ge|right; by apply Z.ltb_ge].
  - intros Hen [Hsz|Hsz]; by rewrite should_download_file_enabled, Hsz.
  - intros Hsz Hmin.
    destruct (decide (toggle_disabled options item)) as [Hdis|Hen].
    + by apply should_download_file_disabled.
    + by rewrite should_download_file_enabled, Hsz, Hmin.
  - intros Hen Hsz Hmin Hmax.
    by rewrite should_download_file_enabled, Hsz, Hmin, Hmax.
Qed.
End Filters.

Lemma should_download_file_filters_witness :
  Base.should_download_file
    (Fixtures.options_with_min 1000) (Fixtures.image_of_size (Some 500)) = false
  ∧ Base.should_download_file
      (Fixtures.options_with_min 0) (Fixtures.image_of_size (Some 500)) = true.
Proof.
  split.
  - by apply (should_download_file_filters
                (Fixtures.options_with_min 1000) (Fixtures.image_of_size (Some 500))).
  - apply (should_download_file_filters
             (Fixtures.options_with_min 0) (Fixtures.image_of_size (Some 500)));
      [|done..].
    unfold Base.toggle_disabled. simpl. intros [[_ ?]|[[? _]|[[? _]|[? _]]]]; done.
Defined.

(** C3, as stated, fails: an image whose known size is 0 is below a minimum
    of 1000 bytes, its type is enabled, and it is accepted: a size of 0 is
    falsy, as [None] is. *)
Lemma should_download_file_zero_size :
  let options := Fixtures.options_with_min 1000 in
  let item := Fixtures.image_of_size (Some 0) in
  Base.download_images options = true
  ∧ Base.effective_file_type item = "image"
  ∧ (∃ sz, Base.size item = Some sz ∧ sz < Base.min_file_size options)
  ∧ 0 < Base.min_file_size options
  ∧ Base.should_download_file options item = true.
Proof. split_and!; try done. by exists 0. Qed.

(** ** The history store *)

(** *** [ORDER BY], [LIMIT] and [OFFSET] *)

Section OrderBy.
Import History.
Context {A : Type} (le : A → A → bool).

Lemma order_insert_Permutation x (l : list A) : order_insert le x l ≡ₚ x :: l.
Proof.
  induction l as [|y l IH]; simpl; [done|].
  destruct (le x y); [done|]. rewrite IH. apply Permutation_swap.
Qed.

Lemma order_by_Permutation (l : list A) : order_by le l ≡ₚ l.
Proof.
  induction l as [|x l IH]; simpl; [done|].
  by rewrite order_insert_Permutation, IH.
Qed.

Lemma order_by_length (l : list A) : length (order_by le l) = length l.
Proof. apply Permutation_length, order_by_Permutation. Qed.

(** Rows with equal keys keep the order of the scan: a class of rows that
    [le] does not tell apart is found in the result as it was in the
    input. *)
Lemma order_insert_filter (P : A → Prop) `{!∀ x, Decision (P x)} x l :
  (∀ a b, P a → P b → le a b = true) →
  filter P (order_insert le x l) = filter P (x :: l).
Proof.
  intros Hle. induction l as [|y l IH]; simpl; [done|].
  destruct (le x y) eqn:Hxy; [done|].
  rewrite filter_cons, IH, !filter_cons.
  destruct (decide (P y)), (decide (P x)); try done.
  rewrite Hle in Hxy by done. done.
Qed.

Lemma order_by_filter (P : A → Prop) `{!∀ x, Decision (P x)} l :
  (∀ a b, P a → P b → le a b = true) →
  filter P (order_by le l) = filter P l.
Proof.
  intros Hle. induction l as [|x l IH]; simpl; [done|].
  by rewrite order_insert_filter, !filter_cons, IH.
Qed.

Hypothesis le_total : ∀ a b, le a b = false → le b a = true.
Hypothesis le_trans : ∀ a b c, le a b = true → le b c = true → le a c = true.

Lemma order_insert_sorted x l :
  StronglySorted (λ a b, le a b = true) l →
  StronglySorted (λ a b, le a b = true) (order_insert le x l).
Proof.
  induction 1 as [|y l Hl IH Hy]; simpl; [by repeat constructor|].
  destruct (le x y) eqn:Hxy.
  - constructor; [by constructor|].
    constructor; [done|]. eapply Forall_impl; [done|]. simpl. eauto.
  - constructor; [done|].
    rewrite order_insert_Permutation. constructor; [by apply le_total|done].
Qed.

Lemma order_by_sorted l : StronglySorted (λ a b, le a b = true) (order_by le l).
Proof.
  induction l; simpl; [constructor|by apply order_insert_sorted].
Qed.
End OrderBy.

Lemma sql_limit_length {A} (n : Z) (l : list A) :
  length (History.sql_limit n l)
  = if n <? 0 then length l else Nat.min (Z.to_nat n) (length l).
Proof. unfold History.sql_limit. destruct (n <? 0); [done|apply length_take]. Qed.

Lemma sql_limit_prefix {A} (n : Z) (l : list A) : History.sql_limit n l `prefix_of` l.
Proof.
  unfold History.sql_limit. destruct (n <? 0); [done|].
  exists (drop (Z.to_nat n) l). by rewrite take_drop.
Qed.

Lemma filter_prefix {A} (P : A → Prop) `{!∀ x, Decision (P x)} (l1 l2 : list A) :
  l1 `prefix_of` l2 → filter P l1 `prefix_of` filter P l2.
Proof. intros [k ->]. rewrite filter_app. by apply prefix_app_r. Qed.

Lemma fmap_prefix {A B} (f : A → B) (l1 l2 : list A) :
  l1 `prefix_of` l2 → f <$> l1 `prefix_of` f <$> l2.
Proof. intros [k ->]. rewrite fmap_app. by apply prefix_app_r. Qed.

Lemma StronglySorted_prefix {A} (R : A → A → Prop) (l1 l2 : list A) :
  l1 `prefix_of` l2 → StronglySorted R l2 → StronglySorted R l1.
Proof. intros [k ->]. apply StronglySorted_app_1_l. Qed.

(** Comparison of texts is a total preorder, and so is that of nullable
    texts. *)
Lemma text_le_total a b : History.text_le a b = false → History.text_le b a = true.
Proof.
  unfold History.text_le. intros Hab.
  destruct (String.leb_total a b) as [?|?]; congruence.
Qed.

Lemma text_le_refl a : History.text_le a a = true.
Proof.
  destruct (History.text_le a a) eqn:H; [done|]. apply text_le_total in H as H'. congruence.
Qed.

Lemma text_le_trans a b c :
  History.text_le a b = true → History.text_le b c = true → History.text_le a c = true.
Proof.
  unfold History.text_le. intros Hab Hbc.
  apply Is_true_true. apply Is_true_true in Hab, Hbc.
  change (String.le a c). by trans b.
Qed.

Lemma nullable_le_total a b :
  History.nullable_le a b = false → History.nullable_le b a = true.
Proof. destruct a, b; simpl; try done. apply text_le_total. Qed.

Lemma nullable_le_trans a b c :
  History.nullable_le a b = true → History.nullable_le b c = true →
  History.nullable_le a c = true.
Proof. destruct a, b, c; simpl; try done. apply text_le_trans. Qed.

(** *** Lists read in step *)

Lemma Forall2_filter_both {A B} (R : A → B → Prop) (P : A → Prop) (Q : B → Prop)
    `{!∀ x, Decision (P x)} `{!∀ y, Decision (Q y)} l k :
  (∀ a b, R a b → (P a ↔ Q b)) →
  Forall2 R l k → Forall2 R (filter P l) (filter Q k).
Proof.
  intros HPQ. induction 1 as [|a b l k Hab _ IH]; [constructor|].
  rewrite !filter_cons. specialize (HPQ _ _ Hab).
  destruct (decide (P a)), (decide (Q b)); try tauto. by constructor.
Qed.

Lemma Forall2_order_insert {A B} (R : A → B → Prop) leA leB x y l k :
  (∀ a b a' b', R a b → R a' b' → leA a a' = leB b b') →
  R x y → Forall2 R l k →
  Forall2 R (History.order_insert leA x l) (History.order_insert leB y k).
Proof.
  intros Hle Hxy. induction 1 as [|a b l k Hab Hlk IH]; simpl.
  - by repeat constructor.
  - rewrite (Hle x y a b) by done.
    destruct (leB y b); by repeat constructor.
Qed.

Lemma Forall2_order_by {A B} (R : A → B → Prop) leA leB l k :
  (∀ a b a' b', R a b → R a' b' → leA a a' = leB b b') →
  Forall2 R l k →
  Forall2 R (History.order_by leA l) (History.order_by leB k).
Proof.
  intros Hle. induction 1; simpl; [constructor|].
  by apply Forall2_order_insert.
Qed.

Lemma Forall2_sql_limit {A B} (R : A → B → Prop) n l k :
  Forall2 R l k → Forall2 R (History.sql_limit n l) (History.sql_limit n k).
Proof.
  intros. unfold History.sql_limit. destruct (n <? 0); [done|by apply Forall2_take].
Qed.

Lemma comprehension_Ok {A B} (f : A → Py.result B) l k :
  Forall2 (λ a b, f a = Py.Ok b) l k →
  Py.comprehension f l = Py.Ok k.
Proof. induction 1 as [|a b l k Hab _ IH]; simpl; [done|]. by rewrite Hab, IH. Qed.

Lemma comprehension_Ok_inv {A B} (f : A → Py.result B) l k :
  Py.comprehension f l = Py.Ok k →
  Forall2 (λ a b, f a = Py.Ok b) l k.
Proof.
  revert k. induction l as [|a l IH]; simpl; intros k.
  - intros [= <-]. constructor.
  - destruct (f a) as [b|] eqn:Hb; simpl; [|done].
    destruct (Py.comprehension f l) as [k'|]; simpl; [|done].
    intros [= <-]. constructor; [done|by apply IH].
Qed.

(** *** Events *)

Section Events.
Import History.
Context {DownloadEventType : Type} `{!PyEnum DownloadEventType}.
Variable json_dumps : json → string.
Variable json_loads : string → result json.

Abbreviation DownloadEvent := (History.DownloadEvent DownloadEventType).
Abbreviation append_event := (History.append_event json_dumps).
Abbreviation _row_to_event := (History._row_to_event json_loads).
Abbreviation get_job_events := (History.get_job_events json_loads).
Abbreviation read_back := (History.read_back json_dumps json_loads).
Abbreviation holds := (History.holds json_dumps).
Abbreviation readable := (History.readable json_loads).
Implicit Types (ev : DownloadEvent) (row : event_row) (d : db).

Lemma bind_int_Ok (n : Z) : int64 n → bind_int n = Ok n.
Proof. intros Hn. unfold bind_int. by rewrite bool_decide_eq_true_2. Qed.

Lemma bind_int_Raise (n : Z) : ¬ int64 n → bind_int n = Raise OverflowError.
Proof. intros Hn. unfold bind_int. by rewrite bool_decide_eq_false_2. Qed.

Lemma bind_ints_Ok (parameters : list Z) :
  Forall int64 parameters → bind_ints parameters = Ok parameters.
Proof.
  unfold bind_ints. induction 1 as [|n l Hn _ IH]; simpl; [done|].
  by rewrite bind_int_Ok, IH.
Qed.

Lemma bind_ints_Raise (parameters : list Z) :
  ¬ Forall int64 parameters → bind_ints parameters = Raise OverflowError.
Proof.
  unfold bind_ints. induction parameters as [|n l IH]; simpl; [by intros []|].
  intros Hl. destruct (decide (int64 n)) as [Hn|Hn].
  - rewrite bind_int_Ok by done. simpl. rewrite IH; [done|].
    intros ?. apply Hl. by constructor.
  - by rewrite bind_int_Raise.
Qed.

Lemma column_value_readable column v :
  load_json_column json_loads column = Ok v → column_value json_loads column = v.
Proof. unfold column_value. by intros ->. Qed.

Lemma holds_row_to_event row ev :
  holds row ev → readable (Some (json_dumps (payload ev))) →
  _row_to_event row = Ok (read_back ev).
Proof.
  intros (Hj & Ht & Hty & Hp) [v Hv]. unfold History._row_to_event, enum_call.
  rewrite Hty, of_value_value, Hp, Hv. simpl. unfold read_back.
  by rewrite Hj, Ht, (column_value_readable _ _ Hv).
Qed.

(** [append_event] adds one row at the end and touches no other. *)
Lemma events_appends d evs :
  ∃ rows, events (foldl append_event d evs) = events d ++ rows
          ∧ Forall2 holds rows evs.
Proof.
  revert d. induction evs as [|ev evs IH]; intros d; simpl.
  - exists []. by rewrite app_nil_r.
  - destruct (IH (append_event d ev)) as (rows & -> & Hrows). simpl.
    eexists (_ :: rows). rewrite <-app_assoc. split; [done|].
    constructor; [|done]. by repeat split.
Qed.

Lemma jobs_appends d evs : jobs (foldl append_event d evs) = jobs d.
Proof. revert d. induction evs as [|ev evs IH]; intros d; simpl; [done|]. by rewrite IH. Qed.

Lemma Forall2_and_r {A B} (R : A → B → Prop) (Q : B → Prop) l k :
  Forall2 R l k → Forall Q k → Forall2 (λ a b, R a b ∧ Q b) l k.
Proof.
  induction 1 as [|a b l k Hab _ IH]; [constructor|].
  intros [Hb Hk]%Forall_cons. constructor; auto.
Qed.

(** What [get_job_events] returns after a run of appends on a fresh store:
    the events of the job, sorted by timestamp, cut at the limit and read
    back. *)
Lemma get_job_events_appends evs j limit :
  int64 limit →
  Forall (λ ev, readable (Some (json_dumps (payload ev))))
    (filter (λ ev, job_id ev = j) evs) →
  get_job_events (foldl append_event empty_db evs) j limit
  = Ok (read_back <$>
          sql_limit limit
            (order_by (λ a b, text_le (timestamp a) (timestamp b))
               (filter (λ ev, job_id ev = j) evs))).
Proof.
  intros Hlimit Hread.
  destruct (events_appends empty_db evs) as (rows & Hev & Hrows). simpl in Hev.
  unfold History.get_job_events, select_job_events.
  rewrite bind_ints_Ok by (constructor; [done|constructor]). simpl. rewrite Hev.
  apply comprehension_Ok, Forall2_fmap_r.
  eapply (Forall2_impl
            (λ row ev, holds row ev ∧ readable (Some (json_dumps (payload ev)))));
    [|intros row ev [Hrow Hev']; exact (holds_row_to_event row ev Hrow Hev')].
  apply Forall2_sql_limit, Forall2_order_by.
  - intros a b a' b' [(_ & -> & _) _] [(_ & -> & _) _]. done.
  - apply Forall2_and_r; [|done].
    apply Forall2_filter_both; [|done]. intros a b (-> & _). done.
Qed.

(** C4, as amended: after any run of [append_event] calls on a fresh
    store, [get_job_events] returns, for every job id and every limit that
    can be bound, events in non-decreasing timestamp order in which the
    events of one timestamp come in the order of their appends; their number
    is the number of appends made for that job id, capped by the limit when
    the limit is not negative (1000 by default). Within the limit every
    appended event of the job is returned. The payloads of the job's events
    are texts the decoder takes. *)
Theorem get_job_events_sorted_counted evs j limit :
  let appended := filter (λ ev, job_id ev = j) evs in
  int64 limit →
  Forall (λ ev, readable (Some (json_dumps (payload ev)))) appended →
  ∃ out,
    get_job_events (foldl append_event empty_db evs) j limit = Ok out
    ∧ StronglySorted String.le (timestamp <$> out)
    ∧ (∀ t, filter (λ ev, timestamp ev = t) out
            `prefix_of` read_back <$> filter (λ ev, timestamp ev = t) appended)
    ∧ length out
      = (if limit <? 0 then length appended
         else Nat.min (Z.to_nat limit) (length appended))
    ∧ (limit < 0 ∨ Z.of_nat (length appended) ≤ limit →
       length out = length appended
       ∧ out ≡ₚ read_back <$> appended
       ∧ ∀ t, filter (λ ev, timestamp ev = t) out
              = read_back <$> filter (λ ev, timestamp ev = t) appended).
Proof.
  intros appended Hlimit Hread.
  eexists. split; [by apply get_job_events_appends|].
  fold appended.
  set (le := λ a b : DownloadEvent, text_le (timestamp a) (timestamp b)).
  assert (∀ t (l : list DownloadEvent),
            filter (λ ev, timestamp ev = t) (read_back <$> l)
                 = read_back <$> filter (λ ev, timestamp ev = t) l) as Hfm.
  { intros t l. induction l as [|e l IH]; [done|].
    rewrite fmap_cons, !filter_cons. simpl.
    destruct (decide (timestamp e = t)); by rewrite IH. }
  assert (∀ t, filter (λ ev, timestamp ev = t) (order_by le appended)
               = filter (λ ev, timestamp ev = t) appended) as Hstable.
  { intros t. apply order_by_filter. intros a b Ha Hb. unfold le.
    rewrite Ha, Hb. apply text_le_refl. }
  assert (limit < 0 ∨ Z.of_nat (length appended) ≤ limit →
          sql_limit limit (order_by le appended) = order_by le appended) as Hall.
  { intros Hlim. unfold sql_limit. destruct (Z.ltb_spec limit 0); [done|].
    apply take_ge. rewrite order_by_length. lia. }
  split_and!.
  - rewrite <-list_fmap_compose.
    eapply StronglySorted_prefix; [by apply fmap_prefix, sql_limit_prefix|].
    eapply StronglySorted_fmap; [|apply (order_by_sorted le)].
    + intros a b Hab. unfold le, text_le in Hab. simpl. by apply Is_true_true.
    + intros a b. apply text_le_total.
    + intros a b c. apply text_le_trans.
  - intros t. rewrite Hfm, <-Hstable.
    by apply fmap_prefix, filter_prefix, sql_limit_prefix.
  - by rewrite length_fmap, sql_limit_length, order_by_length.
  - intros Hlim. rewrite Hall by done. split_and!.
    + by rewrite length_fmap, order_by_length.
    + by rewrite order_by_Permutation.
    + intros t. by rewrite Hfm, Hstable.
Qed.

(** A limit beyond the 64-bit range cannot be bound: [get_job_events]
    raises. *)
Lemma get_job_events_raises d j limit :
  ¬ int64 limit → get_job_events d j limit = Raise OverflowError.
Proof.
  intros Hlimit. unfold History.get_job_events.
  rewrite bind_ints_Raise; [done|]. by intros [? _]%Forall_cons.
Qed.
End Events.

Lemma get_job_events_sorted_counted_witness :
  ∃ out,
    History.get_job_events Fixtures.loads
      (foldl (History.append_event Fixtures.dumps) History.empty_db Fixtures.three_events)
      "job-1" History.get_job_events_limit = Py.Ok out
    ∧ length out = 2%nat.
Proof.
  assert (History.int64 History.get_job_events_limit) as Hlimit
    by (apply (bool_decide_unpack _); by vm_compute).
  assert (Forall (λ ev, History.readable Fixtures.loads
                          (Some (Fixtures.dumps (History.payload ev))))
            (filter (λ ev, History.job_id ev = "job-1") Fixtures.three_events))
    as Hread by (repeat constructor; by eexists).
  destruct (get_job_events_sorted_counted Fixtures.dumps Fixtures.loads
              Fixtures.three_events "job-1" History.get_job_events_limit Hlimit Hread)
    as (out & Hout & _ & _ & _ & Hall).
  exists out. split; [exact Hout|]. apply Hall. right. vm_compute. discriminate.
Defined.

(** C4, as stated, fails: after 1001 appends for one job, [get_job_events]
    with its default limit returns 1000 events. *)
Lemma get_job_events_limit_cuts :
  length (filter (λ ev, History.job_id ev = "job-1") Fixtures.many_events) = 1001%nat
  ∧ match History.get_job_events Fixtures.loads
            (foldl (History.append_event Fixtures.dumps) History.empty_db
               Fixtures.many_events)
            "job-1" History.get_job_events_limit with
    | Py.Ok out => length out
    | Py.Raise _ => 0%nat
    end = 1000%nat.
Proof. split; vm_compute; reflexivity. Qed.

(** *** Retention *)

Lemma NoDup_fmap_elem_eq {A B} (f : A → B) (l : list A) x y :
  NoDup (f <$> l) → x ∈ l → y ∈ l → f x = f y → x = y.
Proof.
  induction l as [|a l IH]; [by intros _ ?%elem_of_nil|].
  rewrite fmap_cons, NoDup_cons.
  intros [Ha Hl] [->|Hx]%elem_of_cons [->|Hy]%elem_of_cons Hxy; auto.
  - destruct Ha. rewrite Hxy. by apply list_elem_of_fmap_2.
  - destruct Ha. rewrite <-Hxy. by apply list_elem_of_fmap_2.
Qed.

Lemma filter_comm {A} (P Q : A → Prop) `{!∀ x, Decision (P x)} `{!∀ x, Decision (Q x)}
    (l : list A) :
  filter P (filter Q l) = filter Q (filter P l).
Proof.
  induction l as [|a l IH]; [done|].
  rewrite !filter_cons.
  destruct (decide (P a)), (decide (Q a)); rewrite ?filter_cons;
    repeat case_decide; try done; by rewrite IH.
Qed.

Lemma filter_all {A} (P : A → Prop) `{!∀ x, Decision (P x)} (l : list A) :
  Forall P l → filter P l = l.
Proof.
  induction 1 as [|a l Ha _ IH]; [done|]. by rewrite filter_cons_True, IH.
Qed.

Lemma filter_none {A} (P : A → Prop) `{!∀ x, Decision (P x)} (l : list A) :
  Forall (λ x, ¬ P x) l → filter P l = [].
Proof.
  induction 1 as [|a l Ha _ IH]; [done|]. by rewrite filter_cons_False.
Qed.

Section Retention.
Import History.
Variable SQLITE_LIMIT_VARIABLE_NUMBER : Z.
Abbreviation clear_completed_jobs :=
  (History.clear_completed_jobs SQLITE_LIMIT_VARIABLE_NUMBER).
Implicit Types (d : db) (row : job_row).

Lemma select_completed_beyond_drop d (k : nat) :
  select_completed_beyond d (Z.of_nat k) = drop k (completed_latest_first d).
Proof.
  unfold select_completed_beyond, sql_limit, sql_offset. simpl.
  by rewrite Nat2Z.id.
Qed.

(** What a call that SQLite takes does when there is a job to delete. *)
Lemma clear_completed_jobs_deletes d keep_last :
  int64 keep_last →
  r_job_id <$> select_completed_beyond d keep_last ≠ [] →
  Z.of_nat (length (r_job_id <$> select_completed_beyond d keep_last))
    ≤ SQLITE_LIMIT_VARIABLE_NUMBER →
  clear_completed_jobs d keep_last
  = (delete_jobs d (r_job_id <$> select_completed_beyond d keep_last),
     Ok (Z.of_nat (length (r_job_id <$> select_completed_beyond d keep_last)))).
Proof.
  intros Hk Hsome Hvars. unfold History.clear_completed_jobs.
  rewrite bind_ints_Ok by (constructor; [done|constructor]).
  destruct (r_job_id <$> select_completed_beyond d keep_last) as [|i ids]; [done|].
  by rewrite bool_decide_eq_true_2.
Qed.


(** With more ids to delete than a statement takes parameters, and with a
    [keep_last] that cannot be bound, the call raises and the store is as
    before. *)
Lemma clear_completed_jobs_raises d keep_last :
  (¬ int64 keep_last →
   clear_completed_jobs d keep_last = (d, Raise OverflowError))
  ∧ (int64 keep_last → 0 ≤ SQLITE_LIMIT_VARIABLE_NUMBER →
     SQLITE_LIMIT_VARIABLE_NUMBER
       < Z.of_nat (length (select_completed_beyond d keep_last)) →
     clear_completed_jobs d keep_last
     = (d, Raise OperationalError)).
Proof.
  unfold History.clear_completed_jobs. split.
  - intros Hk. rewrite bind_ints_Raise; [done|]. by intros [? _]%Forall_cons.
  - intros Hk Hpos Hmany. rewrite bind_ints_Ok by (constructor; [done|constructor]).
    destruct (select_completed_beyond d keep_last) as [|r rows] eqn:Hrows;
      [simpl in Hmany; lia|].
    rewrite fmap_cons, bool_decide_eq_false_2; [done|].
    rewrite <-fmap_cons, length_fmap. lia.
Qed.
End Retention.

(** *** Saving and reading jobs *)

Section Jobs.
Import History.
Context {DownloadEventType : Type} `{!PyEnum DownloadEventType}.
Variable json_dumps : json → string.
Variable json_loads : string → result json.
Variable SQLITE_LIMIT_VARIABLE_NUMBER : Z.

Abbreviation save_job := (History.save_job json_dumps).
Abbreviation job_to_row := (History.job_to_row json_dumps).
Abbreviation _row_to_job := (History._row_to_job json_loads).
Abbreviation _row_to_event := (History._row_to_event (DownloadEventType:=DownloadEventType) json_loads).
Abbreviation get_job := (History.get_job json_loads).
Abbreviation list_jobs := (History.list_jobs json_loads).
Abbreviation get_job_events :=
  (History.get_job_events (DownloadEventType:=DownloadEventType) json_loads).
Abbreviation reloaded := (History.reloaded json_dumps json_loads).
Abbreviation malformed := (History.malformed json_loads).
Abbreviation readable := (History.readable json_loads).
Abbreviation column_value := (History.column_value json_loads).
Abbreviation load_json_column := (History.load_json_column json_loads).
Implicit Types (d : db) (job : DownloadJob) (row : job_row).

(** [save_job] writes the row of the job when the counters can be bound,
    and raises without writing otherwise. *)
Lemma save_job_Ok d job :
  storable job → save_job d job = (insert_or_replace d (job_to_row job), Ok ()).
Proof. intros Hjob. unfold History.save_job. by rewrite bind_ints_Ok. Qed.

Lemma save_job_Raise d job :
  ¬ storable job → save_job d job = (d, Raise OverflowError).
Proof. intros Hjob. unfold History.save_job. by rewrite bind_ints_Raise. Qed.

Lemma insert_rows_of_id d row :
  filter (λ r, r_job_id r = r_job_id row) (jobs (insert_or_replace d row)) = [row].
Proof.
  simpl. rewrite filter_app, filter_comm, filter_none.
  - by rewrite filter_cons_True.
  - apply Forall_forall. intros r [? _]%list_elem_of_filter ?. done.
Qed.

Lemma insert_overwrites d row1 row2 :
  r_job_id row1 = r_job_id row2 →
  insert_or_replace (insert_or_replace d row1) row2 = insert_or_replace d row2.
Proof.
  intros Hid. unfold insert_or_replace at 1 3. f_equal. simpl.
  rewrite filter_app, filter_cons_False, app_nil_r by (simpl; auto).
  rewrite Hid. rewrite list_filter_filter. f_equal. apply list_filter_iff. tauto.
Qed.

Lemma row_to_job_Ok row st v :
  r_status row = value st → load_json_column (r_options_json row) = Ok v →
  _row_to_job row = Ok (job_of_row row st v).
Proof.
  intros Hst Hv. unfold History._row_to_job, enum_call.
  by rewrite Hv, Hst, of_value_value.
Qed.

Lemma row_to_event_Ok (erow : event_row) (ty : DownloadEventType) v :
  e_type erow = value ty → load_json_column (e_payload_json erow) = Ok v →
  _row_to_event erow = Ok (event_of_row erow ty v).
Proof.
  intros Hty Hv. unfold History._row_to_event, enum_call.
  by rewrite Hv, Hty, of_value_value.
Qed.

Lemma get_job_insert d job :
  readable (Some (json_dumps (options_snapshot job))) →
  get_job (insert_or_replace d (job_to_row job)) (id job) = Ok (Some (reloaded job)).
Proof.
  intros [v Hv]. unfold History.get_job, select_job.
  change (id job) with (r_job_id (job_to_row job)). rewrite insert_rows_of_id. simpl.
  rewrite (row_to_job_Ok _ (status job) v) by done. simpl. do 2 f_equal.
  unfold job_of_row, reloaded, History.reloaded. simpl.
  by rewrite (column_value_readable _ _ _ Hv).
Qed.

Lemma NoDup_fmap_filter {A B} (f : A → B) (P : A → Prop) `{!∀ x, Decision (P x)}
    (l : list A) :
  NoDup (f <$> l) → NoDup (f <$> filter P l).
Proof.
  induction l as [|a l IH]; [done|].
  rewrite fmap_cons, NoDup_cons, filter_cons. intros [Ha Hl].
  destruct (decide (P a)); [|by apply IH].
  rewrite fmap_cons, NoDup_cons. split; [|by apply IH].
  intros (x & Hx & [_ Hin]%list_elem_of_filter)%list_elem_of_fmap.
  apply Ha. rewrite Hx. by apply list_elem_of_fmap_2.
Qed.

Lemma save_job_job_ids_distinct d job :
  NoDup (r_job_id <$> jobs d) → NoDup (r_job_id <$> jobs (save_job d job).1).
Proof.
  intros Hd. destruct (decide (storable job)) as [Hjob|Hjob];
    [rewrite save_job_Ok by done|by rewrite save_job_Raise].
  simpl. rewrite fmap_app. apply NoDup_app. split_and!.
  - by apply NoDup_fmap_filter.
  - intros x (r & -> & [Hne _]%list_elem_of_filter)%list_elem_of_fmap.
    simpl. intros Hx%list_elem_of_singleton. by apply Hne.
  - apply NoDup_singleton.
Qed.

(** Whatever a call of [clear_completed_jobs] does, the rows it leaves are
    rows that were there, in their order. *)
Lemma clear_completed_jobs_store d keep_last :
  (History.clear_completed_jobs SQLITE_LIMIT_VARIABLE_NUMBER d keep_last).1 = d
  ∨ ∃ job_ids,
      (History.clear_completed_jobs SQLITE_LIMIT_VARIABLE_NUMBER d keep_last).1
      = delete_jobs d job_ids.
Proof.
  unfold History.clear_completed_jobs.
  destruct (bind_ints [keep_last]); [|by left].
  destruct (r_job_id <$> select_completed_beyond d keep_last) as [|i ids]; [by left|].
  case_bool_decide; [right; by eexists|by left].
Qed.

(** The job ids of the [jobs] table are distinct in every store that the
    writing calls reach from a fresh file: the PRIMARY KEY. *)
Lemma job_ids_distinct (ws : list (write DownloadEventType)) :
  NoDup (r_job_id <$>
           jobs (foldl (run_write json_dumps SQLITE_LIMIT_VARIABLE_NUMBER) empty_db ws)).
Proof.
  assert (NoDup (r_job_id <$> jobs empty_db)) as Hd by constructor.
  revert Hd. generalize empty_db. induction ws as [|w ws IH]; intros d Hd; [done|].
  simpl. apply IH. destruct w as [job|event|job_id|keep_last]; simpl.
  - by apply save_job_job_ids_distinct.
  - done.
  - by apply NoDup_fmap_filter.
  - destruct (clear_completed_jobs_store d keep_last) as [->|[ids ->]]; [done|].
    by apply NoDup_fmap_filter.
Qed.



Lemma load_json_column_malformed column :
  malformed column → load_json_column column = Ok empty_dict.
Proof.
  intros (text & -> & Hbad). simpl. rewrite Hbad. by destruct (PyStr.truthy text).
Qed.

(** C8, as amended: a row of [jobs] or [events] that holds the value of a
    status, or of an event type, and a text that the decoder rejects with
    [JSONDecodeError] is still returned by the read operations: every field
    is the column of the row, and the empty dict stands in place of the
    text. [list_jobs] and [get_job_events] return every row they select
    so read, when the other rows they select hold texts the decoder takes
    and the limit and the offset can be bound. *)
Theorem malformed_json_is_recovered :
  (∀ row (st : JobStatus), malformed (r_options_json row) → r_status row = value st →
     _row_to_job row = Ok (job_of_row row st empty_dict))
  ∧ (∀ (erow : event_row) (ty : DownloadEventType),
       malformed (e_payload_json erow) → e_type erow = value ty →
       _row_to_event erow = Ok (event_of_row erow ty empty_dict))
  ∧ (∀ d job_id row (st : JobStatus), select_job d job_id = Some row →
       malformed (r_options_json row) → r_status row = value st →
       get_job d job_id = Ok (Some (job_of_row row st empty_dict)))
  ∧ (∀ d limit status offset,
       int64 limit → int64 offset →
       Forall (λ row, (∃ st : JobStatus, r_status row = value st)
                      ∧ readable (r_options_json row))
         (select_jobs d limit status offset) →
       ∃ out, list_jobs d limit status offset = Ok out
              ∧ Forall2 (λ row job,
                   (∃ st : JobStatus,
                      r_status row = value st
                      ∧ job = job_of_row row st (column_value (r_options_json row)))
                   ∧ (malformed (r_options_json row) →
                      options_snapshot job = empty_dict))
                 (select_jobs d limit status offset) out)
  ∧ (∀ d job_id limit,
       int64 limit →
       Forall (λ erow, (∃ ty : DownloadEventType, e_type erow = value ty)
                       ∧ readable (e_payload_json erow))
         (select_job_events d job_id limit) →
       ∃ out, get_job_events d job_id limit = Ok out
              ∧ Forall2 (λ erow ev,
                   (∃ ty, e_type erow = value ty
                          ∧ ev = event_of_row erow ty
                                   (column_value (e_payload_json erow)))
                   ∧ (malformed (e_payload_json erow) → payload ev = empty_dict))
                 (select_job_events d job_id limit) out).
Proof.
  split_and!.
  - intros row st Hbad Hst. apply row_to_job_Ok; [done|].
    by apply load_json_column_malformed.
  - intros erow ty Hbad Hty. apply row_to_event_Ok; [done|].
    by apply load_json_column_malformed.
  - intros d job_id row st Hrow Hbad Hst. unfold History.get_job. rewrite Hrow.
    rewrite (row_to_job_Ok row st empty_dict); [done..|].
    by apply load_json_column_malformed.
  - intros d limit status offset Hlimit Hoffset. unfold History.list_jobs.
    rewrite bind_ints_Ok by (repeat (constructor; [done|]); constructor).
    simpl. induction 1 as [|row rows [[st Hst] [v Hv]] _ (out & Hout & IH)]; simpl.
    + exists []. by split; [|constructor].
    + exists (job_of_row row st v :: out).
      rewrite (row_to_job_Ok row st v) by done. simpl. rewrite Hout. simpl.
      split; [done|]. constructor; [|done].
      rewrite (column_value_readable _ _ _ Hv). split; [by exists st|].
      intros Hbad%load_json_column_malformed. simpl. congruence.
  - intros d job_id limit Hlimit. unfold History.get_job_events.
    rewrite bind_ints_Ok by (constructor; [done|constructor]).
    simpl. induction 1 as [|row rows [[ty Hty] [v Hv]] _ (out & Hout & IH)]; simpl.
    + exists []. by split; [|constructor].
    + exists (event_of_row row ty v :: out).
      rewrite (row_to_event_Ok row ty v) by done. simpl. rewrite Hout. simpl.
      split; [done|]. constructor; [|done].
      rewrite (column_value_readable _ _ _ Hv). split; [by exists ty|].
      intros Hbad%load_json_column_malformed. simpl. congruence.
Qed.
End Jobs.

(** ** The scheduler *)

Section SchedulerProperties.
Import Scheduler.
Implicit Types (s : DownloadScheduler) (job : ScheduledJob).
Implicit Types (fs : gmap string (gmap string ScheduledJob)).

Lemma schedule_job_Some s job fs id s' fs' :
  schedule_job s job fs = (Some id, s', fs') →
  id = job_id job
  ∧ db_path s' = db_path s
  ∧ fs' = <[db_path s := <[job_id job := job]> (table s fs)]> fs.
Proof.
  unfold schedule_job. destruct (valid_job job); [|done].
  intros [= <- <- <-]. done.
Qed.

(** C6: once [schedule_job] has returned the id of a job, a scheduler
    constructed afterwards on the same store lists the job in
    [get_all_jobs], and finds it by its id. *)
Theorem scheduled_job_persists s1 job fs id s1' fs' s2 fs'' :
  schedule_job s1 job fs = (Some id, s1', fs') →
  new_scheduler (db_path s1) fs' = (s2, fs'') →
  job ∈ get_all_jobs s2 fs''
  ∧ get_job s2 (job_id job) fs'' = Some job
  ∧ id = job_id job.
Proof.
  intros (-> & _ & ->)%schedule_job_Some. unfold new_scheduler.
  rewrite lookup_insert_eq. intros [= <- <-].
  assert (table {| db_path := db_path s1; running := false; emitted := [] |}
            (<[db_path s1 := <[job_id job := job]> (table s1 fs)]> fs)
          !! job_id job = Some job) as Hjob.
  { unfold table at 1. simpl. rewrite lookup_insert_eq. simpl.
    by rewrite lookup_insert_eq. }
  split_and!; [|done..].
  unfold get_all_jobs. apply list_elem_of_fmap. exists (job_id job, job).
  split; [done|]. by apply elem_of_map_to_list.
Qed.
End SchedulerProperties.

(** ** The theorems on concrete data *)



Lemma malformed_json_is_recovered_witness :
  History._row_to_job Fixtures.loads Fixtures.cut_row
  = Py.Ok (History.job_of_row Fixtures.cut_row History.COMPLETED History.empty_dict).
Proof.
  apply (malformed_json_is_recovered (DownloadEventType:=Fixtures.EventTag) Fixtures.loads).
  - exists "{". split; reflexivity.
  - reflexivity.
Defined.

(** C8, as stated, fails. A text of a thousand opening brackets is not
    JSON, and the decoder raises [RecursionError] on it, which the reads do
    not catch: [get_job] and [list_jobs] raise on a store that holds a row
    with that text. And a row whose text is cut short but whose status is
    no status is not returned either: [JobStatus] raises [ValueError]. *)
Lemma malformed_json_is_not_always_recovered :
  Fixtures.loads Fixtures.deep_text = Py.Raise Py.RecursionError
  ∧ History.get_job Fixtures.loads (Fixtures.store_of Fixtures.deep_row) "job-9"
    = Py.Raise Py.RecursionError
  ∧ History.list_jobs Fixtures.loads (Fixtures.store_of Fixtures.deep_row)
      History.list_jobs_limit None 0
    = Py.Raise Py.RecursionError
  ∧ History.malformed Fixtures.loads (History.r_options_json Fixtures.odd_row)
  ∧ History.get_job Fixtures.loads (Fixtures.store_of Fixtures.odd_row) "job-9"
    = Py.Raise (Py.ValueError "done").
Proof.
  split_and!; try (vm_compute; reflexivity).
  exists "{". split; reflexivity.
Qed.


Lemma scheduled_job_persists_witness :
  let start := Scheduler.new_scheduler "scheduler.db" ∅ in
  let scheduled := Scheduler.schedule_job start.1 Fixtures.persist_job start.2 in
  let restart := Scheduler.new_scheduler "scheduler.db" scheduled.2 in
  Fixtures.persist_job ∈ Scheduler.get_all_jobs restart.1 restart.2.
Proof.
  intros start scheduled restart.
  eapply proj1, (scheduled_job_persists start.1 Fixtures.persist_job start.2
                   "test-persist" scheduled.1.2 scheduled.2 restart.1 restart.2);
    reflexivity.
Defined.

(** * Further properties of the code *)

(** ** Texts *)

Lemma lower_char_idemp (c : ascii) : PyStr.lower_char (PyStr.lower_char c) = PyStr.lower_char c.
Proof. destruct c as [[] [] [] [] [] [] [] []]; reflexivity. Qed.

Lemma lower_idemp (s : string) : PyStr.lower (PyStr.lower s) = PyStr.lower s.
Proof. induction s as [|c s IH]; simpl; [done|]. by rewrite lower_char_idemp, IH. Qed.

Lemma lower_map_chars (s : string) : PyStr.lower s = PyStr.map_chars PyStr.lower_char s.
Proof. induction s as [|c s IH]; simpl; [done|]. by rewrite IH. Qed.

Lemma lower_app (s t : string) :
  PyStr.lower (s +:+ t) = PyStr.lower s +:+ PyStr.lower t.
Proof.
  induction s as [|c s IH]; [done|].
  change (String c s +:+ t) with (String c (s +:+ t)). simpl. rewrite IH. done.
Qed.

(** A map of characters that keeps [sep] apart from the others commutes with
    the search for [sep] and with the split at the last [sep]. *)
Section MapChars.
Variables (g : ascii → ascii) (sep : ascii).
Hypothesis g_sep : ∀ c, g c = sep ↔ c = sep.

Lemma eqb_sep_map c : Ascii.eqb sep (g c) = Ascii.eqb sep c.
Proof.
  destruct (Ascii.eqb_spec sep (g c)) as [H1|H1], (Ascii.eqb_spec sep c) as [H2|H2];
    try done.
  - destruct H2. symmetry. by apply g_sep.
  - destruct H1. symmetry. by apply g_sep.
Qed.

Lemma contains_char_map_chars s :
  PyStr.contains_char sep (PyStr.map_chars g s) = PyStr.contains_char sep s.
Proof. induction s as [|c s IH]; simpl; [done|]. by rewrite eqb_sep_map, IH. Qed.

Lemma rsplit_last_map_chars s :
  PyStr.rsplit_last sep (PyStr.map_chars g s) = PyStr.map_chars g (PyStr.rsplit_last sep s).
Proof.
  induction s as [|c s IH]; simpl; [done|].
  rewrite contains_char_map_chars.
  destruct (PyStr.contains_char sep s); [done|].
  rewrite (Ascii.eqb_sym (g c)), eqb_sep_map, (Ascii.eqb_sym sep).
  by destruct (Ascii.eqb c sep).
Qed.
End MapChars.

Lemma lower_char_dot c : PyStr.lower_char c = "."%char ↔ c = "."%char.
Proof. destruct c as [[] [] [] [] [] [] [] []]; vm_compute; split; congruence. Qed.

Lemma rsplit_last_app (sep : ascii) (p e : string) :
  PyStr.contains_char sep e = false →
  PyStr.contains_char sep (p +:+ String sep e) = true
  ∧ PyStr.rsplit_last sep (p +:+ String sep e) = e.
Proof.
  intros He. induction p as [|c p [IH1 IH2]].
  - change ("" +:+ String sep e) with (String sep e). simpl.
    by rewrite He, Ascii.eqb_refl.
  - change (String c p +:+ String sep e) with (String c (p +:+ String sep e)).
    simpl. rewrite IH1, IH2. by destruct (Ascii.eqb sep c).
Qed.

Lemma startswith_spec (p s : string) :
  PyStr.startswith p s = true ↔ ∃ rest, s = p +:+ rest.
Proof.
  revert s. induction p as [|a p IH]; intros s; simpl.
  - split; [by exists s|done].
  - destruct s as [|b s].
    + split; [done|]. by intros [rest ?].
    + destruct (Ascii.eqb_spec a b) as [->|Hne].
      * rewrite IH. split; intros [rest Hrest]; exists rest.
        -- by rewrite Hrest.
        -- change (String b p +:+ rest) with (String b (p +:+ rest)) in Hrest.
           congruence.
      * split; [done|]. intros [rest Hrest].
        change (String a p +:+ rest) with (String a (p +:+ rest)) in Hrest.
        congruence.
Qed.

Lemma contains_spec (sub s : string) :
  PyStr.contains sub s = true ↔ ∃ before rest, s = before +:+ sub +:+ rest.
Proof.
  induction s as [|c s IH].
  - simpl. destruct (PyStr.startswith sub "") eqn:Hs.
    + split; [|done]. intros _. apply startswith_spec in Hs as [rest ->].
      by exists "", rest.
    + split; [done|]. intros (before & rest & Heq).
      destruct before as [|b before]; [|done].
      change ("" +:+ sub +:+ rest) with (sub +:+ rest) in Heq.
      assert (PyStr.startswith sub "" = true) by (apply startswith_spec; eauto).
      congruence.
  - cbn [PyStr.contains]. destruct (PyStr.startswith sub (String c s)) eqn:Hs.
    + split; [|done]. intros _. apply startswith_spec in Hs as [rest ->].
      by exists "", rest.
    + rewrite IH. split.
      * intros (before & rest & ->). by exists (String c before), rest.
      * intros (before & rest & Heq). destruct before as [|b before].
        -- change ("" +:+ sub +:+ rest) with (sub +:+ rest) in Heq.
           assert (PyStr.startswith sub (String c s) = true)
             by (apply startswith_spec; eauto).
           congruence.
        -- change (String b before +:+ sub +:+ rest)
             with (String b (before +:+ sub +:+ rest)) in Heq.
           exists before, rest. congruence.
Qed.

(** ** File types and filenames *)

Lemma get_file_type_of_ext (f : string) :
  Base.get_file_type f =
    let ext := if PyStr.contains_char "." f
               then String "." (PyStr.lower (PyStr.rsplit_last "." f)) else "" in
    if Base.in_set ext Base.IMAGE_EXTENSIONS then "image"
    else if Base.in_set ext Base.VIDEO_EXTENSIONS then "video"
    else if Base.in_set ext Base.DOCUMENT_EXTENSIONS then "document"
    else if Base.in_set ext Base.COMPRESSED_EXTENSIONS then "compressed"
    else "other".
Proof. reflexivity. Qed.

(** X1: [get_file_type] gives one of the five tags; a filename without a
    dot, and a filename that ends in a dot, are of type [other]. *)
Theorem get_file_type_tags (f : string) :
  Base.get_file_type f ∈ Base.file_type_tags
  ∧ (PyStr.contains_char "." f = false → Base.get_file_type f = "other")
  ∧ Base.get_file_type (f +:+ ".") = "other".
Proof.
  split_and!.
  - rewrite get_file_type_of_ext. cbv zeta. unfold Base.file_type_tags.
    repeat match goal with |- context [if ?b then _ else _] => destruct b end;
      set_solver.
  - intros Hdot. rewrite get_file_type_of_ext, Hdot. reflexivity.
  - destruct (rsplit_last_app "." f "" eq_refl) as [H1 H2].
    rewrite get_file_type_of_ext, H1, H2. reflexivity.
Qed.

Lemma get_file_type_tags_witness : Base.get_file_type "README" = "other".
Proof. by apply (get_file_type_tags "README"). Defined.

(** X2: the type of a filename depends only on what follows its last dot,
    whatever the case of the letters. *)
Theorem get_file_type_last_extension (f : string) :
  Base.get_file_type (PyStr.lower f) = Base.get_file_type f
  ∧ (∀ p e, PyStr.contains_char "." e = false →
       Base.get_file_type (p +:+ String "." e) = Base.get_file_type (String "." e)).
Proof.
  split.
  - rewrite !get_file_type_of_ext. cbv zeta.
    rewrite (lower_map_chars f).
    rewrite (contains_char_map_chars _ _ lower_char_dot).
    rewrite (rsplit_last_map_chars _ _ lower_char_dot).
    by rewrite <-lower_map_chars, lower_idemp.
  - intros p e He.
    destruct (rsplit_last_app "." p e He) as [H1 H2].
    destruct (rsplit_last_app "." "" e He) as [H3 H4].
    change ("" +:+ String "." e) with (String "." e) in H3, H4.
    by rewrite !get_file_type_of_ext, H1, H2, H3, H4.
Qed.

Lemma get_file_type_last_extension_witness :
  Base.get_file_type ("backup.tar" +:+ String "." "GZ") = Base.get_file_type (String "." "GZ").
Proof. by apply (get_file_type_last_extension ""). Defined.

Lemma sanitize_char_valid (d : ascii) : Base.sanitize_char d ∉ Base.invalid_chars.
Proof.
  unfold Base.sanitize_char. case_bool_decide; [|done].
  apply (bool_decide_unpack _). by vm_compute.
Qed.

Lemma contains_char_true (c : ascii) (s : string) :
  PyStr.contains_char c (String c s) = true.
Proof. simpl. by rewrite Ascii.eqb_refl. Qed.

Lemma sanitize_filename_length (f : string) :
  String.length (Base.sanitize_filename f) = String.length f.
Proof.
  unfold Base.sanitize_filename. induction f as [|d f IH]; simpl; [done|].
  by rewrite IH.
Qed.

Lemma sanitize_filename_no_invalid (f : string) (c : ascii) :
  c ∈ Base.invalid_chars → PyStr.contains_char c (Base.sanitize_filename f) = false.
Proof.
  intros Hc. unfold Base.sanitize_filename.
  induction f as [|d f IH]; simpl; [done|].
  destruct (Ascii.eqb_spec c (Base.sanitize_char d)) as [->|_]; [|done].
  by apply sanitize_char_valid in Hc.
Qed.

Lemma sanitize_filename_id (f : string) :
  (∀ c, c ∈ Base.invalid_chars → PyStr.contains_char c f = false) →
  Base.sanitize_filename f = f.
Proof.
  unfold Base.sanitize_filename.
  induction f as [|d f IH]; simpl; [done|]. intros Hf.
  rewrite IH.
  - unfold Base.sanitize_char. rewrite bool_decide_eq_false_2; [done|].
    intros Hd. specialize (Hf d Hd). by rewrite Ascii.eqb_refl in Hf.
  - intros c Hc. specialize (Hf c Hc). by destruct (Ascii.eqb c d).
Qed.

(** X3: [sanitize_filename] keeps the length of the filename, leaves none
    of the nine invalid characters in it, and returns unchanged exactly the
    filenames that hold none of them. *)
Theorem sanitize_filename_clean (f : string) :
  String.length (Base.sanitize_filename f) = String.length f
  ∧ Forall (λ c, PyStr.contains_char c (Base.sanitize_filename f) = false)
      Base.invalid_chars
  ∧ (Base.sanitize_filename f = f
     ↔ Forall (λ c, PyStr.contains_char c f = false) Base.invalid_chars).
Proof.
  assert (Forall (λ c, PyStr.contains_char c (Base.sanitize_filename f) = false)
            Base.invalid_chars) as Hclean.
  { apply Forall_forall. intros c Hc. by apply sanitize_filename_no_invalid. }
  split_and!; [apply sanitize_filename_length|done|].
  split; [by intros <-|].
  rewrite Forall_forall. apply sanitize_filename_id.
Qed.

Lemma sanitize_filename_clean_witness : Base.sanitize_filename "photo.jpg" = "photo.jpg".
Proof.
  apply (sanitize_filename_clean "photo.jpg").
  apply (bool_decide_unpack _). by vm_compute.
Defined.

Lemma sanitize_char_dot (c : ascii) : Base.sanitize_char c = "."%char ↔ c = "."%char.
Proof.
  unfold Base.sanitize_char. case_bool_decide as Hc; [|done].
  split; [done|]. intros ->. exfalso. revert Hc.
  apply (bool_decide_unpack _). by vm_compute.
Qed.

Lemma lower_char_invalid (c : ascii) : c ∈ Base.invalid_chars → PyStr.lower_char c = c.
Proof.
  unfold Base.invalid_chars. rewrite !elem_of_cons, elem_of_nil.
  intros [->|[->|[->|[->|[->|[->|[->|[->|[->|[]]]]]]]]]]; reflexivity.
Qed.

(** Lower-casing a sanitized text gives a text free of invalid characters
    and of underscores only when the text was free of invalid characters. *)
Lemma lower_sanitize_eq (e m : string) :
  Forall (λ c, PyStr.contains_char c m = false) ("_"%char :: Base.invalid_chars) →
  PyStr.lower (Base.sanitize_filename e) = m ↔ PyStr.lower e = m.
Proof.
  unfold Base.sanitize_filename. revert m.
  induction e as [|c e IH]; intros m Hm; simpl; [done|].
  destruct m as [|d m]; [done|].
  assert (d ∉ "_"%char :: Base.invalid_chars) as Hd.
  { intros Hin. rewrite Forall_forall in Hm. specialize (Hm d Hin).
    by rewrite contains_char_true in Hm. }
  assert (Forall (λ c, PyStr.contains_char c m = false)
            ("_"%char :: Base.invalid_chars)) as Hm'.
  { eapply Forall_impl; [exact Hm|]. intros c0 H0. simpl in H0.
    by destruct (Ascii.eqb c0 d). }
  specialize (IH m Hm').
  assert (PyStr.lower_char (Base.sanitize_char c) = d ↔ PyStr.lower_char c = d) as Hc.
  { unfold Base.sanitize_char. case_bool_decide as Hinv; [|done].
    rewrite (lower_char_invalid c Hinv). split.
    - intros <-. destruct Hd. by left.
    - intros <-. destruct Hd. by right. }
  split; intros [= H1 H2]; f_equal; tauto.
Qed.

Lemma in_set_dot_ext (a b : string) (S : list string) :
  Forall (λ m, Forall (λ c, PyStr.contains_char c m = false)
                 ("_"%char :: Base.invalid_chars)) S →
  (∀ m, Forall (λ c, PyStr.contains_char c m = false)
          ("_"%char :: Base.invalid_chars) → a = m ↔ b = m) →
  Base.in_set (String "." a) S = Base.in_set (String "." b) S.
Proof.
  intros HS Hab. unfold Base.in_set. apply bool_decide_ext.
  induction HS as [|m S Hm _ IH]; [by rewrite !elem_of_nil|].
  rewrite !elem_of_cons, IH.
  assert (String "." a = m ↔ String "." b = m) as ->; [|done].
  destruct m as [|d m]; [done|].
  assert (Forall (λ c, PyStr.contains_char c m = false)
            ("_"%char :: Base.invalid_chars)) as Hm'.
  { eapply Forall_impl; [exact Hm|]. intros c0 H0. simpl in H0.
    by destruct (Ascii.eqb c0 d). }
  specialize (Hab m Hm'). split; intros [= <- H]; f_equal; tauto.
Qed.

(** X4: sanitizing a filename does not change its file type. *)
Theorem get_file_type_sanitize_filename (f : string) :
  Base.get_file_type (Base.sanitize_filename f) = Base.get_file_type f.
Proof.
  assert (PyStr.contains_char "." (Base.sanitize_filename f)
          = PyStr.contains_char "." f) as H1
    by apply (contains_char_map_chars _ _ sanitize_char_dot).
  assert (PyStr.rsplit_last "." (Base.sanitize_filename f)
          = Base.sanitize_filename (PyStr.rsplit_last "." f)) as H2
    by apply (rsplit_last_map_chars _ _ sanitize_char_dot).
  rewrite !get_file_type_of_ext. cbv zeta. rewrite !H1, !H2.
  destruct (PyStr.contains_char "." f); [|done].
  set (e := PyStr.rsplit_last "." f).
  assert (∀ S,
    Forall (λ m, Forall (λ c, PyStr.contains_char c m = false)
                   ("_"%char :: Base.invalid_chars)) S →
    Base.in_set (String "." (PyStr.lower (Base.sanitize_filename e))) S
    = Base.in_set (String "." (PyStr.lower e)) S) as Hset.
  { intros S HS. apply in_set_dot_ext; [done|].
    intros m Hm. by apply lower_sanitize_eq. }
  rewrite !Hset; [done|..]; apply (bool_decide_unpack _); by vm_compute.
Qed.

(** X5: options with every type toggle on and no size bound, the default
    options among them, let every item through. *)
Theorem should_download_file_permissive (item : Base.MediaItem) :
  Base.should_download_file Base.default_options item = true
  ∧ ∀ options,
      Base.download_images options = true → Base.download_videos options = true →
      Base.download_documents options = true → Base.download_compressed options = true →
      Base.min_file_size options ≤ 0 → Base.max_file_size options ≤ 0 →
      Base.should_download_file options item = true.
Proof.
  assert (∀ options,
      Base.download_images options = true → Base.download_videos options = true →
      Base.download_documents options = true → Base.download_compressed options = true →
      Base.min_file_size options ≤ 0 → Base.max_file_size options ≤ 0 →
      Base.should_download_file options item = true) as Hgen.
  { intros options Hi Hv Hd Hc Hmin Hmax.
    rewrite should_download_file_enabled.
    - destruct (Base.truthy_size (Base.size item)); [|done].
      rewrite (proj2 (Z.ltb_ge 0 (Base.min_file_size options))) by done.
      rewrite (proj2 (Z.ltb_ge 0 (Base.max_file_size options))) by done. done.
    - unfold Base.toggle_disabled. intros [[_ ?]|[[_ ?]|[[_ ?]|[_ ?]]]]; congruence. }
  split; [|done]. by apply Hgen.
Qed.

Lemma should_download_file_permissive_witness :
  Base.should_download_file (Fixtures.options_with_min 0) (Fixtures.image_of_size (Some 1)) = true.
Proof.
  apply (should_download_file_permissive (Fixtures.image_of_size (Some 1)));
    first [reflexivity | vm_compute; discriminate].
Defined.

(** ** Cancellation and reset *)

(** X6: [reset] puts a handler back in the state its constructor gave it,
    with the folder, options and callbacks it has; it undoes
    [request_cancel], which raises the flag and logs one message when a log
    callback was given and none otherwise. *)
Theorem reset_restores_initial_state {Callback : Type}
    (call_tr : Callback → string → string) (self : Base.BaseDownloader Callback) :
  Base.reset self
    = Base.__init__ (Base.download_folder self) (Some (Base.options self))
        (Base.kwargs_of self)
  ∧ Base.is_cancelled (Base.reset self) = false
  ∧ Base.is_cancelled (Base.request_cancel call_tr self).1 = true
  ∧ Base.reset (Base.request_cancel call_tr self).1 = Base.reset self
  ∧ ((Base.request_cancel call_tr self).2 = [] ↔ Base.log_callback self = None)
  ∧ (∀ callback, Base.log_callback self = Some callback →
       (Base.request_cancel call_tr self).2
       = [(callback,
           match Base.tr self with
           | Some f => call_tr f "Download cancellation requested."
           | None => "Download cancellation requested."
           end)]).
Proof.
  split_and!; try reflexivity.
  - unfold Base.request_cancel, Base.log. simpl.
    destruct (Base.log_callback self); split; congruence.
  - intros callback Hcb. unfold Base.request_cancel, Base.log, Base.translate.
    simpl. by rewrite Hcb.
Qed.

Lemma reset_restores_initial_state_witness :
  (Base.request_cancel (λ (_ : unit) text, text)
     (Base.__init__ "/downloads" None
        {| Base.kw_log_callback := Some ();
           Base.kw_progress_callback := None;
           Base.kw_global_progress_callback := None;
           Base.kw_enable_widgets_callback := None;
           Base.kw_tr := None |})).2
  = [((), "Download cancellation requested.")].
Proof.
  destruct (reset_restores_initial_state (λ (_ : unit) text, text)
              (Base.__init__ "/downloads" None
                 {| Base.kw_log_callback := Some ();
                    Base.kw_progress_callback := None;
                    Base.kw_global_progress_callback := None;
                    Base.kw_enable_widgets_callback := None;
                    Base.kw_tr := None |})) as (_ & _ & _ & _ & _ & Hlog).
  apply Hlog. reflexivity.
Defined.

(** ** The SimpCity handler *)

(** X7: [SimpCity.supports_url] does not raise on [None] and rejects it and
    the empty URL; it ignores the case of letters, and accepts exactly the
    URLs that hold the text simpcity, in any case, anywhere in them. *)
Theorem simpcity_supports_url :
  SimpCity.supports_url None = false
  ∧ SimpCity.supports_url (Some "") = false
  ∧ (∀ u v, PyStr.lower u = PyStr.lower v →
       SimpCity.supports_url (Some u) = SimpCity.supports_url (Some v))
  ∧ (∀ url, SimpCity.supports_url (Some (PyStr.lower url))
            = SimpCity.supports_url (Some url))
  ∧ (∀ url, SimpCity.supports_url (Some url) = true
            ↔ ∃ before rest, PyStr.lower url = before +:+ "simpcity" +:+ rest)
  ∧ (∀ before word rest, PyStr.lower word = "simpcity" →
       SimpCity.supports_url (Some (before +:+ word +:+ rest)) = true).
Proof.
  unfold SimpCity.supports_url. simpl. split_and!; try reflexivity.
  - by intros u v ->.
  - intros url. by rewrite lower_idemp.
  - intros url. apply contains_spec.
  - intros before word rest Hword. apply contains_spec.
    exists (PyStr.lower before), (PyStr.lower rest).
    by rewrite !lower_app, Hword.
Qed.

Lemma simpcity_supports_url_witness :
  SimpCity.supports_url (Some ("https://example.com/?next=" +:+ "SimpCity" +:+ ".su")) = true.
Proof. by apply simpcity_supports_url. Defined.

(** ** More on the registry and the selector *)

Section FactoryMore.
Import Py Base Factory.
Context {Callback : Type} {C : Type} `{EqDecision C}.
Context `{!HandlerContract Callback C} {YtDlpOptions : Type}.

Implicit Types (env : Modules Callback YtDlpOptions) (classes : registry C).
Implicit Types (url folder : string) (options : option DownloadOptions).
Implicit Types (kwargs : Kwargs Callback) (c : C).
Implicit Types (d : Downloader Callback C YtDlpOptions).

Lemma elem_of_register classes c c' : c' ∈ register classes c ↔ c' = c ∨ c' ∈ classes.
Proof.
  unfold register. case_bool_decide as Hc.
  - split; [by right|]. by intros [->|?].
  - rewrite elem_of_app, list_elem_of_singleton. tauto.
Qed.

Lemma NoDup_register classes c : NoDup classes → NoDup (register classes c).
Proof.
  intros Hnd. unfold register. case_bool_decide as Hc; [done|].
  apply NoDup_app. split_and!; [done| |apply NoDup_singleton].
  intros x Hx ->%list_elem_of_singleton. done.
Qed.

Lemma foldl_register classes (cs : list C) :
  NoDup classes →
  NoDup (foldl register classes cs)
  ∧ ∀ c', c' ∈ foldl register classes cs ↔ c' ∈ classes ∨ c' ∈ cs.
Proof.
  revert classes. induction cs as [|c cs IH]; intros classes Hnd; simpl.
  - split; [done|]. intros c'. rewrite elem_of_nil. tauto.
  - destruct (IH (register classes c) (NoDup_register _ _ Hnd)) as [H1 H2].
    split; [done|]. intros c'. rewrite H2, elem_of_register, elem_of_cons. tauto.
Qed.

(** X8: a registry built by registrations from the empty one holds every
    registered class once: [register] adds its class to the members, grows
    the list by one when the class is new and by none otherwise, and keeps
    the list free of duplicates. *)
Theorem register_builds_set classes c (cs : list C) :
  (∀ c', c' ∈ register classes c ↔ c' = c ∨ c' ∈ classes)
  ∧ (NoDup classes → NoDup (register classes c))
  ∧ length (register classes c)
    = (length classes + if bool_decide (c ∈ classes) then 0 else 1)%nat
  ∧ NoDup (foldl register (clear_registry classes) cs)
  ∧ (∀ c', c' ∈ foldl register (clear_registry classes) cs ↔ c' ∈ cs).
Proof.
  destruct (foldl_register [] cs (NoDup_nil_2)) as [H1 H2].
  split_and!.
  - apply elem_of_register.
  - apply NoDup_register.
  - unfold register. case_bool_decide; [lia|]. rewrite length_app. simpl. lia.
  - done.
  - intros c'. unfold clear_registry. rewrite H2, elem_of_nil. tauto.
Qed.

Lemma site_names_Ok classes :
  Forall instantiable classes →
  comprehension
    (λ c, instance ← instantiate c "" None no_kwargs; Ok (get_site_name c instance))
    classes
  = Ok ((λ c, get_site_name c (__init__ "" None no_kwargs)) <$> classes).
Proof.
  induction 1 as [|c classes Hc _ IH]; simpl; [done|].
  rewrite instantiate_Ok by done. simpl. by rewrite IH.
Qed.

Lemma site_names_Raise classes :
  ¬ Forall instantiable classes →
  comprehension
    (λ c, instance ← instantiate c "" None no_kwargs; Ok (get_site_name c instance))
    classes
  = Raise TypeError.
Proof.
  induction classes as [|c classes IH]; simpl; [by intros []|].
  intros Hnot. destruct (decide (instantiable c)) as [Hc|Hc].
  - rewrite instantiate_Ok by done. simpl. rewrite IH; [done|].
    intros ?. apply Hnot. by constructor.
  - by rewrite instantiate_Raise.
Qed.

(** X9: when every registered class can be instantiated,
    [get_supported_sites] lists the site name of every registered class in
    registration order, followed by the yt-dlp entry exactly when the
    adapter can be imported; with a registered class that cannot be
    instantiated it raises [TypeError]. On an empty registry the list is
    empty only when the adapter cannot be imported. *)
Theorem get_supported_sites_lists env classes :
  (Forall instantiable classes →
   ∃ sites,
     get_supported_sites env classes = Ok sites
     ∧ (λ c, get_site_name c (__init__ "" None no_kwargs)) <$> classes `prefix_of` sites
     ∧ length sites
       = (length classes + if ytdlp_adapter env is Some _ then 1 else 0)%nat
     ∧ (ytdlp_adapter env ≠ None →
        last sites = Some "Universal (yt-dlp) - 1000+ sites"))
  ∧ (¬ Forall instantiable classes →
     get_supported_sites env classes
     = Raise TypeError)
  ∧ (get_supported_sites env (clear_registry classes) = Ok []
     ↔ ytdlp_adapter env = None).
Proof.
  unfold get_supported_sites, clear_registry. split_and!.
  - intros Hinst. rewrite site_names_Ok by done. simpl.
    destruct (ytdlp_adapter env) as [f|]; eexists; (split; [done|]); split_and!;
      try done.
    + by apply prefix_app_r.
    + rewrite length_app, length_fmap. simpl. lia.
    + intros _. by rewrite last_snoc.
    + rewrite length_fmap. lia.
  - intros Hnot. by rewrite site_names_Raise.
  - simpl. by destruct (ytdlp_adapter env).
Qed.

Lemma native_downloader_app classes c url folder options kwargs :
  native_downloader (YtDlpOptions:=YtDlpOptions)
    (classes ++ [c]) url folder options kwargs
  = match native_downloader classes url folder options kwargs with
    | Ok None =>
        instance ← instantiate c folder options kwargs;
        if supports_url c instance url
        then Ok (Some (NativeInstance c instance))
        else Ok None
    | found => found
    end.
Proof.
  induction classes as [|c0 classes IH]; simpl.
  - destruct (instantiate c folder options kwargs) as [instance|]; simpl; [|done].
    by destruct (supports_url c instance url).
  - destruct (instantiate c0 folder options kwargs) as [instance|]; simpl; [|done].
    by destruct (supports_url c0 instance url).
Qed.

(** X10: registering a handler that can be instantiated changes the
    handler chosen for a URL only when no handler registered before supports
    the URL and the new one does; the new handler is then chosen, ahead of
    both fallbacks. Registering a class that cannot be instantiated makes
    the selector raise for the URLs that no class registered before
    supports. *)
Theorem register_keeps_selection env classes c url folder options
    use_generic_fallback use_ytdlp_fallback ytdlp_options kwargs :
  ((∃ c0, c0 ∈ classes ∧ supports_url c0 (__init__ folder options kwargs) url = true) →
   get_downloader env (register classes c) url folder options
     use_generic_fallback use_ytdlp_fallback ytdlp_options kwargs
   = get_downloader env classes url folder options
       use_generic_fallback use_ytdlp_fallback ytdlp_options kwargs)
  ∧ (instantiable c →
     supports_url c (__init__ folder options kwargs) url = false →
     get_downloader env (register classes c) url folder options
       use_generic_fallback use_ytdlp_fallback ytdlp_options kwargs
     = get_downloader env classes url folder options
         use_generic_fallback use_ytdlp_fallback ytdlp_options kwargs)
  ∧ (Forall (λ c0, instantiable c0
                   ∧ supports_url c0 (__init__ folder options kwargs) url = false)
       classes →
     instantiable c →
     supports_url c (__init__ folder options kwargs) url = true →
     get_downloader env (register classes c) url folder options
       use_generic_fallback use_ytdlp_fallback ytdlp_options kwargs
     = Ok (Some (NativeInstance c (__init__ folder options kwargs))))
  ∧ (Forall (λ c0, instantiable c0
                   ∧ supports_url c0 (__init__ folder options kwargs) url = false)
       classes →
     ¬ instantiable c →
     get_downloader env (register classes c) url folder options
       use_generic_fallback use_ytdlp_fallback ytdlp_options kwargs
     = Raise TypeError).
Proof.
  unfold register. case_bool_decide as Hc.
  - split_and!; try done.
    + intros Hnone _ Hsup. rewrite Forall_forall in Hnone.
      destruct (Hnone c Hc). congruence.
    + intros Hnone Hnot. rewrite Forall_forall in Hnone.
      by destruct (Hnone c Hc).
  - unfold get_downloader. rewrite native_downloader_app. split_and!.
    + intros (c0 & Hin & Hc0).
      destruct (native_downloader (YtDlpOptions:=YtDlpOptions)
                  classes url folder options kwargs) as [[d|]|e] eqn:Hnat; [done| |done].
      apply native_downloader_None in Hnat. rewrite Forall_forall in Hnat.
      destruct (Hnat c0 Hin). congruence.
    + intros Hinst Hsup. rewrite instantiate_Ok by done. simpl. rewrite Hsup.
      by destruct (native_downloader classes url folder options kwargs) as [[d|]|e].
    + intros Hnone Hinst Hsup.
      rewrite (proj2 (native_downloader_None (YtDlpOptions:=YtDlpOptions)
                        classes url folder options kwargs) Hnone).
      rewrite instantiate_Ok by done. simpl. by rewrite Hsup.
    + intros Hnone Hnot.
      rewrite (proj2 (native_downloader_None (YtDlpOptions:=YtDlpOptions)
                        classes url folder options kwargs) Hnone).
      by rewrite instantiate_Raise.
Qed.

(** X11: when every registered class can be instantiated and none supports
    the URL, the yt-dlp handler is returned, with the yt-dlp options given,
    exactly when that fallback is enabled, importable and supports the URL,
    whether or not the generic fallback is enabled; the generic handler is
    returned exactly when it is enabled and importable and the yt-dlp
    handler is not returned. *)
Theorem get_downloader_fallback_order env classes url folder options
    use_generic_fallback use_ytdlp_fallback ytdlp_options kwargs :
  Forall (λ c, instantiable c
               ∧ supports_url c (__init__ folder options kwargs) url = false) classes →
  let result := get_downloader env classes url folder options
                  use_generic_fallback use_ytdlp_fallback ytdlp_options kwargs in
  let ytdlp_takes :=
    use_ytdlp_fallback = true
    ∧ ∃ ytdlp_supports_url,
        ytdlp_adapter env = Some ytdlp_supports_url
        ∧ ytdlp_supports_url (__init__ folder options kwargs) ytdlp_options url = true in
  (result = Ok (Some (YtDlpInstance (__init__ folder options kwargs) ytdlp_options))
   ↔ ytdlp_takes)
  ∧ (result = Ok (Some (GenericInstance (__init__ folder options kwargs)))
     ↔ ¬ ytdlp_takes ∧ use_generic_fallback = true ∧ generic_module env = true)
  ∧ (∀ c self, result ≠ Ok (Some (NativeInstance c self)))
  ∧ (∃ found, result = Ok found).
Proof.
  intros Hnone. cbv zeta.
  unfold get_downloader, ytdlp_downloader, generic_downloader.
  rewrite (proj2 (native_downloader_None (YtDlpOptions:=YtDlpOptions)
                    classes url folder options kwargs) Hnone).
  simpl.
  destruct use_ytdlp_fallback, (ytdlp_adapter env) as [f|];
    try destruct (f _ ytdlp_options url) eqn:Hf;
    destruct use_generic_fallback, (generic_module env);
    split_and!; try done;
    try (by eexists);
    try (split; [done|]);
    try (split; [|done]);
    try (intros; split_and!; try done);
    try (intros [_ (g & [= <-] & ?)]; congruence);
    try (intros [? _]; done);
    try (intros [Hn _]; exfalso; apply Hn; by eauto);
    try (intros [_ [? ?]]; done);
    try (intros _; by eauto);
    try by eauto.
Qed.

(** X27: [get_downloader] raises exactly when its loop reaches a class that
    cannot be instantiated before it reaches a class that supports the URL;
    it then raises [TypeError], whatever the fallback flags and modules
    are. *)
Theorem get_downloader_raises env classes url folder options
    use_generic_fallback use_ytdlp_fallback ytdlp_options kwargs e :
  get_downloader env classes url folder options
    use_generic_fallback use_ytdlp_fallback ytdlp_options kwargs = Raise e
  ↔ ∃ before c after,
      classes = before ++ c :: after
      ∧ Forall (λ c', instantiable c'
                      ∧ supports_url c' (__init__ folder options kwargs) url = false)
          before
      ∧ ¬ instantiable c
      ∧ e = TypeError.
Proof.
  rewrite <-(native_downloader_Raise (YtDlpOptions:=YtDlpOptions)).
  unfold get_downloader.
  destruct (native_downloader classes url folder options kwargs) as [[d|]|e'];
    simpl; [done| |done].
  by destruct (ytdlp_downloader env url folder options
                 use_ytdlp_fallback ytdlp_options kwargs).
Qed.
End FactoryMore.

(** The registry that importing [downloader/simpcity.py] builds. *)
Lemma get_downloader_raises_witness :
  Factory.get_downloader Fixtures.no_ytdlp (Factory.register [] Fixtures.SimpCityClass)
    "https://simpcity.su/threads/1" "/downloads" None true true None Base.no_kwargs
  = Py.Raise Py.TypeError.
Proof.
  apply (get_downloader_raises Fixtures.no_ytdlp).
  exists [], Fixtures.SimpCityClass, []. split_and!;
    [reflexivity|constructor|discriminate|reflexivity].
Defined.

Lemma register_builds_set_witness :
  NoDup (Factory.register [Fixtures.DummyDownloader] Fixtures.AnotherDummyDownloader).
Proof.
  apply (register_builds_set [Fixtures.DummyDownloader]
           Fixtures.AnotherDummyDownloader []).
  apply (bool_decide_unpack _). by vm_compute.
Defined.

Lemma get_supported_sites_lists_witness :
  ∃ sites,
    Factory.get_supported_sites Fixtures.no_ytdlp
      [Fixtures.DummyDownloader; Fixtures.AnotherDummyDownloader] = Py.Ok sites
    ∧ length sites = 2%nat.
Proof.
  destruct (proj1 (get_supported_sites_lists Fixtures.no_ytdlp
                     [Fixtures.DummyDownloader; Fixtures.AnotherDummyDownloader]))
    as (sites & Hsites & _ & Hlen & _).
  - by repeat constructor.
  - exists sites. split; [exact Hsites|exact Hlen].
Defined.

Lemma register_keeps_selection_witness :
  Factory.get_downloader Fixtures.no_ytdlp
    (Factory.register [Fixtures.DummyDownloader] Fixtures.AnotherDummyDownloader)
    "https://dummy.com/another" "/downloads" None true true None Base.no_kwargs
  = Factory.get_downloader Fixtures.no_ytdlp [Fixtures.DummyDownloader]
      "https://dummy.com/another" "/downloads" None true true None Base.no_kwargs.
Proof.
  apply (proj1 (register_keeps_selection Fixtures.no_ytdlp [Fixtures.DummyDownloader]
           Fixtures.AnotherDummyDownloader "https://dummy.com/another" "/downloads"
           None true true None Base.no_kwargs)).
  exists Fixtures.DummyDownloader. split; [apply list_elem_of_here|reflexivity].
Defined.

Lemma get_downloader_fallback_order_witness :
  Factory.get_downloader Fixtures.no_ytdlp [Fixtures.DummyDownloader]
    "https://unsupported.com/test" "/downloads" None true true None Base.no_kwargs
  = Py.Ok (Some (Factory.GenericInstance
                   (Base.__init__ "/downloads" None Base.no_kwargs))).
Proof.
  apply (get_downloader_fallback_order Fixtures.no_ytdlp [Fixtures.DummyDownloader]
           "https://unsupported.com/test" "/downloads" None true true None
           Base.no_kwargs).
  - by repeat constructor.
  - split_and!; [|reflexivity..]. intros [_ (f & Hf & _)]. discriminate Hf.
Defined.

(** ** More on the history store *)

Lemma filter_eq_of_ne {A B} `{EqDecision B} (f : A → B) (x y : B) (l : list A) :
  x ≠ y →
  filter (λ r, f r = x) (filter (λ r, f r ≠ y) l) = filter (λ r, f r = x) l.
Proof.
  intros Hxy. rewrite list_filter_filter. apply list_filter_iff.
  intros r. split; [tauto|]. intros ->. done.
Qed.

Lemma filter_eq_of_ne_same {A B} `{EqDecision B} (f : A → B) (x : B) (l : list A) :
  filter (λ r, f r = x) (filter (λ r, f r ≠ x) l) = [].
Proof.
  apply filter_none, Forall_forall. intros r [Hne _]%list_elem_of_filter. done.
Qed.

Lemma Forall_filter_keep {A} (P Q : A → Prop) `{!∀ x, Decision (Q x)} (l : list A) :
  Forall P l → Forall P (filter Q l).
Proof.
  rewrite !Forall_forall. intros Hl x [_ Hx]%list_elem_of_filter. by apply Hl.
Qed.

Lemma Forall_order_by {A} (P : A → Prop) (le : A → A → bool) (l : list A) :
  Forall P l → Forall P (History.order_by le l).
Proof. by rewrite order_by_Permutation. Qed.

Lemma Forall_sql_limit {A} (P : A → Prop) n (l : list A) :
  Forall P l → Forall P (History.sql_limit n l).
Proof.
  intros. unfold History.sql_limit. destruct (n <? 0); [done|by apply Forall_take].
Qed.

Lemma Forall_sql_offset {A} (P : A → Prop) n (l : list A) :
  Forall P l → Forall P (History.sql_offset n l).
Proof. intros. by apply Forall_drop. Qed.

Lemma comprehension_total {A B} (f : A → Py.result B) (l : list A) :
  Forall (λ a, ∃ b, f a = Py.Ok b) l →
  ∃ k, Py.comprehension f l = Py.Ok k.
Proof.
  induction 1 as [|a l [b Hb] _ [k Hk]]; simpl; [by eexists|].
  rewrite Hb. simpl. rewrite Hk. simpl. by eexists.
Qed.

Section HistoryMore.
Import History.
Context {DownloadEventType : Type} `{!PyEnum DownloadEventType}.
Variable json_dumps : json → string.
Variable json_loads : string → result json.
Variable SQLITE_LIMIT_VARIABLE_NUMBER : Z.

Abbreviation DownloadEvent := (History.DownloadEvent DownloadEventType).
Abbreviation write := (History.write DownloadEventType).
Abbreviation run_write := (History.run_write json_dumps SQLITE_LIMIT_VARIABLE_NUMBER).
Abbreviation decodable := (History.decodable json_dumps json_loads).
Abbreviation save_job := (History.save_job json_dumps).
Abbreviation append_event := (History.append_event json_dumps).
Abbreviation job_to_row := (History.job_to_row json_dumps).
Abbreviation _row_to_job := (History._row_to_job json_loads).
Abbreviation _row_to_event :=
  (History._row_to_event (DownloadEventType:=DownloadEventType) json_loads).
Abbreviation get_job := (History.get_job json_loads).
Abbreviation list_jobs := (History.list_jobs json_loads).
Abbreviation get_job_events :=
  (History.get_job_events (DownloadEventType:=DownloadEventType) json_loads).
Implicit Types (d : db) (job : DownloadJob) (row : job_row) (ev : DownloadEvent).
Implicit Types (ws : list write).

(** The rows written by the store hold values of the enums, and texts
    that are read back when the written texts are. *)
Lemma written_rows_valid ws :
  Forall decodable ws →
  Forall (λ r, ∃ job, _row_to_job r = Ok job)
    (jobs (foldl run_write empty_db ws))
  ∧ Forall (λ r, ∃ ev, _row_to_event r = Ok ev)
      (events (foldl run_write empty_db ws)).
Proof.
  assert (Forall (λ r, ∃ job, _row_to_job r = Ok job) (jobs empty_db)
          ∧ Forall (λ r, ∃ ev, _row_to_event r = Ok ev) (events empty_db)) as Hd
    by (split; constructor).
  revert Hd. generalize empty_db.
  induction ws as [|w ws IH]; intros d [Hj He] Hws; [done|].
  apply Forall_cons in Hws as [Hw Hws].
  simpl. apply IH; [|done]. destruct w as [job|ev|job_id|keep_last]; simpl.
  - destruct (decide (storable job)) as [Hjob|Hjob];
      [rewrite (save_job_Ok json_dumps) by done
      |by rewrite (save_job_Raise json_dumps)].
    split; [|done]. apply Forall_app. split; [by apply Forall_filter_keep|].
    apply Forall_singleton. destruct Hw as [v Hv].
    rewrite (row_to_job_Ok json_loads _ (status job) v); [by eexists|done..].
  - split; [done|]. apply Forall_app. split; [done|].
    apply Forall_singleton. destruct Hw as [v Hv].
    erewrite (row_to_event_Ok json_loads _ (type ev) v); [by eexists|done..].
  - split; by apply Forall_filter_keep.
  - destruct (clear_completed_jobs_store SQLITE_LIMIT_VARIABLE_NUMBER d keep_last)
      as [->|[ids ->]]; [done|].
    split; by apply Forall_filter_keep.
Qed.

(** X12: on every store that the writing calls reach from a fresh file,
    the three read operations return and do not raise, for a limit and an
    offset that can be bound, when the texts that were written are texts
    the decoder takes or rejects: every stored status and event type is a
    value of its enum. A limit or an offset outside the 64-bit range makes
    [list_jobs] raise. *)
Theorem reads_never_raise ws (job_id : string) (limit offset : Z)
    (status : option JobStatus) :
  Forall decodable ws →
  let d := foldl run_write empty_db ws in
  (∃ found, get_job d job_id = Ok found)
  ∧ (int64 limit → int64 offset →
     ∃ listed, list_jobs d limit status offset = Ok listed)
  ∧ (int64 limit → ∃ out, get_job_events d job_id limit = Ok out)
  ∧ (¬ (int64 limit ∧ int64 offset) →
     list_jobs d limit status offset = Raise OverflowError).
Proof.
  intros Hws d. destruct (written_rows_valid ws Hws) as [Hj He]. fold d in Hj, He.
  split_and!.
  - unfold History.get_job, select_job.
    destruct (head _) as [row|] eqn:Hrow; [|by eexists].
    apply head_Some_elem_of, list_elem_of_filter in Hrow as [_ Hrow].
    rewrite Forall_forall in Hj. destruct (Hj row Hrow) as [job ->].
    by eexists.
  - intros Hlimit Hoffset. unfold History.list_jobs.
    rewrite bind_ints_Ok by (repeat (constructor; [done|]); constructor). simpl.
    apply comprehension_total. unfold select_jobs.
    apply Forall_sql_limit, Forall_sql_offset, Forall_order_by.
    destruct status; [by apply Forall_filter_keep|done].
  - intros Hlimit. unfold History.get_job_events.
    rewrite bind_ints_Ok by (constructor; [done|constructor]). simpl.
    apply comprehension_total. unfold select_job_events.
    apply Forall_sql_limit, Forall_order_by. by apply Forall_filter_keep.
  - intros Hnot. unfold History.list_jobs. rewrite bind_ints_Raise; [done|].
    intros [? [? _]%Forall_cons]%Forall_cons. by apply Hnot.
Qed.

(** The writes that leave the row of a job id in place. *)
Lemma select_job_run_write d (w : write) (job_id : string) :
  match w with
  | SaveJob job' => id job' ≠ job_id
  | AppendEvent _ => True
  | DeleteJob job_id' => job_id' ≠ job_id
  | ClearCompletedJobs _ => False
  end →
  select_job (run_write d w) job_id = select_job d job_id.
Proof.
  destruct w as [job'|ev|job_id'|keep_last]; simpl; try done; intros Hne;
    unfold select_job; simpl.
  - destruct (decide (storable job')) as [Hjob|Hjob];
      [rewrite (save_job_Ok json_dumps) by done
      |by rewrite (save_job_Raise json_dumps)].
    simpl. rewrite filter_app, filter_eq_of_ne by done.
    rewrite filter_cons_False, app_nil_r by (simpl; auto). done.
  - by rewrite filter_eq_of_ne.
Qed.

(** X13: a job whose counters fit their columns, saved with [save_job], is
    read back by [get_job] as it was saved, when its options snapshot
    survives the encoder and the decoder, and stays so through later saves
    and deletions of jobs of other ids and appends of events. *)
Theorem get_job_reads_saved_job d job ws :
  storable job →
  json_loads (json_dumps (options_snapshot job)) = Ok (options_snapshot job) →
  json_dumps (options_snapshot job) ≠ "" →
  Forall (λ w, match w with
               | SaveJob job' => id job' ≠ id job
               | AppendEvent _ => True
               | DeleteJob job_id' => job_id' ≠ id job
               | ClearCompletedJobs _ => False
               end) ws →
  (save_job d job).2 = Ok ()
  ∧ get_job (foldl run_write (save_job d job).1 ws) (id job) = Ok (Some job).
Proof.
  intros Hjob Hround Hne Hws. rewrite (save_job_Ok json_dumps) by done.
  split; [done|]. cbn [fst].
  assert (select_job (foldl run_write (insert_or_replace d (job_to_row job)) ws)
            (id job)
          = Some (job_to_row job)) as Hrow.
  { assert (select_job (insert_or_replace d (job_to_row job)) (id job)
            = Some (job_to_row job)) as H0.
    { unfold select_job. change (id job) with (r_job_id (job_to_row job)).
      by rewrite insert_rows_of_id. }
    revert H0. generalize (insert_or_replace d (job_to_row job)).
    induction Hws as [|w ws Hw _ IH]; intros d0 H0; [done|].
    simpl. apply IH. by rewrite select_job_run_write. }
  unfold History.get_job. rewrite Hrow.
  rewrite (row_to_job_Ok json_loads _ (status job) (options_snapshot job));
    [by destruct job|done|].
  simpl. rewrite Hround.
  by destruct (json_dumps (options_snapshot job)).
Qed.

(** X14: [save_job] touches the row of its job id only: the job read for
    any other id, and the events read for any job, are as before. *)
Theorem save_job_frame d job (job_id : string) (limit : Z) :
  (job_id ≠ id job → get_job (save_job d job).1 job_id = get_job d job_id)
  ∧ get_job_events (save_job d job).1 job_id limit = get_job_events d job_id limit
  ∧ (∀ ev, get_job (append_event d ev) job_id = get_job d job_id).
Proof.
  split_and!; [| |done].
  - intros Hne. unfold History.get_job.
    pose proof (select_job_run_write d (SaveJob job) job_id (not_eq_sym Hne)) as Hsel.
    simpl in Hsel. by rewrite Hsel.
  - destruct (decide (storable job)) as [Hjob|Hjob];
      [by rewrite (save_job_Ok json_dumps)|by rewrite (save_job_Raise json_dumps)].
Qed.

(** X15: [delete_job] reports whether a row of the id was stored; after it
    no job and no event of that id is read, the jobs and events of other
    ids are read as before, and a second deletion reports [False] and
    changes nothing. The events are read with a limit that can be bound. *)
Theorem delete_job_removes d (job_id other : string) (limit : Z) :
  ((delete_job d job_id).2 = true ↔ ∃ row, row ∈ jobs d ∧ r_job_id row = job_id)
  ∧ get_job (delete_job d job_id).1 job_id = Ok None
  ∧ (int64 limit → get_job_events (delete_job d job_id).1 job_id limit = Ok [])
  ∧ (other ≠ job_id →
     get_job (delete_job d job_id).1 other = get_job d other
     ∧ get_job_events (delete_job d job_id).1 other limit = get_job_events d other limit)
  ∧ delete_job (delete_job d job_id).1 job_id = ((delete_job d job_id).1, false).
Proof.
  split_and!.
  - simpl. rewrite bool_decide_eq_true, Exists_exists. done.
  - unfold History.get_job, select_job. simpl. by rewrite filter_eq_of_ne_same.
  - intros Hlimit. unfold History.get_job_events, select_job_events.
    rewrite bind_ints_Ok by (constructor; [done|constructor]). simpl.
    rewrite filter_eq_of_ne_same. simpl. unfold sql_limit.
    destruct (limit <? 0); [done|by rewrite take_nil].
  - intros Hne. split.
    + unfold History.get_job, select_job. simpl. by rewrite filter_eq_of_ne.
    + unfold History.get_job_events, select_job_events. simpl.
      by rewrite filter_eq_of_ne.
  - unfold delete_job. simpl. f_equal.
    + f_equal; apply filter_all, Forall_forall;
        by intros r [? _]%list_elem_of_filter.
    + apply bool_decide_eq_false. rewrite Exists_exists.
      intros (r & [Hne _]%list_elem_of_filter & Heq). done.
Qed.
End HistoryMore.

(** *** Listing jobs *)

Lemma filter_ext_in {A} (P Q : A → Prop) `{!∀ x, Decision (P x)} `{!∀ x, Decision (Q x)}
    (l : list A) :
  (∀ x, x ∈ l → P x ↔ Q x) → filter P l = filter Q l.
Proof.
  induction l as [|a l IH]; intros Hl; [done|].
  rewrite !filter_cons, IH by (intros x Hx; apply Hl; by right).
  destruct (decide (P a)) as [Hp|Hp], (decide (Q a)) as [Hq|Hq]; try done;
    apply (Hl a) in Hp || apply (Hl a) in Hq; done || by left.
Qed.

Lemma StronglySorted_suffix {A} (R : A → A → Prop) n (l : list A) :
  StronglySorted R l → StronglySorted R (drop n l).
Proof.
  intros Hl. rewrite <-(take_drop n l) in Hl.
  by apply StronglySorted_app_1_r in Hl.
Qed.

Lemma StronglySorted_Forall2 {A B} (R : A → B → Prop) (S : A → A → Prop)
    (T : B → B → Prop) (l : list A) (k : list B) :
  (∀ a a' b b', R a b → R a' b' → S a a' → T b b') →
  Forall2 R l k → StronglySorted S l → StronglySorted T k.
Proof.
  intros HST. induction 1 as [|a b l k Hab Hlk IH]; [constructor|].
  intros [Ha Hl]%StronglySorted_cons. apply StronglySorted_cons. split; [|by apply IH].
  clear IH Hl. induction Hlk as [|a' b' l k Hab' _ IH]; [constructor|].
  apply Forall_cons in Ha as [Ha Hl]. constructor; [by eapply HST|by apply IH].
Qed.

Lemma comprehension_app {A B} (f : A → Py.result B) (l1 l2 : list A) k1 k2 :
  Py.comprehension f l1 = Py.Ok k1 →
  Py.comprehension f l2 = Py.Ok k2 →
  Py.comprehension f (l1 ++ l2) = Py.Ok (k1 ++ k2).
Proof.
  intros H1%comprehension_Ok_inv H2%comprehension_Ok_inv.
  apply comprehension_Ok. by apply Forall2_app.
Qed.

Section Listing.
Import History.
Variable json_loads : string → result json.

Abbreviation _row_to_job := (History._row_to_job json_loads).
Abbreviation list_jobs := (History.list_jobs json_loads).
Implicit Types (d : db) (job : DownloadJob) (row : job_row).

Lemma row_to_job_fields row job :
  _row_to_job row = Ok job →
  id job = r_job_id row
  ∧ created_at job = r_created_at row
  ∧ of_value (r_status row) = Some (status job).
Proof.
  unfold History._row_to_job, enum_call.
  destruct (of_value (r_status row)) as [st|],
    (load_json_column json_loads (r_options_json row)) as [v|]; simpl; try done.
  by intros [= <-].
Qed.

(** A call of [list_jobs] that returns has bound its limit and offset. *)
Lemma list_jobs_Ok_inv d limit status offset listed :
  list_jobs d limit status offset = Ok listed →
  int64 limit ∧ int64 offset
  ∧ comprehension _row_to_job (select_jobs d limit status offset) = Ok listed.
Proof.
  unfold History.list_jobs.
  destruct (decide (Forall int64 [limit; offset])) as [Hb|Hb].
  - rewrite bind_ints_Ok by done. simpl. intros Hrows.
    apply Forall_cons in Hb as [? [? _]%Forall_cons]. done.
  - by rewrite bind_ints_Raise.
Qed.

Lemma select_jobs_sorted d limit status offset :
  StronglySorted (λ a b, text_le (r_created_at b) (r_created_at a) = true)
    (select_jobs d limit status offset).
Proof.
  unfold select_jobs.
  eapply StronglySorted_prefix; [apply sql_limit_prefix|].
  apply StronglySorted_suffix.
  apply (order_by_sorted (λ a b : job_row, text_le (r_created_at b) (r_created_at a))).
  - intros a b. apply text_le_total.
  - intros a b c H1 H2. by eapply text_le_trans.
Qed.

(** X16: the jobs [list_jobs] returns are jobs of the store, at most
    [limit] of them when the limit is not negative, all of the status asked
    for when one is given, the most recently created first. *)
Theorem list_jobs_filtered_sorted d limit status offset listed :
  list_jobs d limit status offset = Ok listed →
  (0 ≤ limit → Z.of_nat (length listed) ≤ limit)
  ∧ (∀ st, status = Some st → Forall (λ job, History.status job = st) listed)
  ∧ StronglySorted (λ a b, String.le (created_at b) (created_at a)) listed
  ∧ Forall (λ job, id job ∈ r_job_id <$> jobs d) listed.
Proof.
  intros (_ & _ & Hrows%comprehension_Ok_inv)%list_jobs_Ok_inv. split_and!.
  - intros Hlim. rewrite <-(Forall2_length _ _ _ Hrows).
    unfold select_jobs. rewrite sql_limit_length.
    rewrite (proj2 (Z.ltb_ge limit 0)) by lia. lia.
  - intros st ->. unfold select_jobs in Hrows.
    assert (Forall (λ r, r_status r = value st)
              (sql_limit limit (sql_offset offset
                 (order_by (λ a b, text_le (r_created_at b) (r_created_at a))
                    (filter (λ r, r_status r = value st) (jobs d)))))) as Hst.
    { apply Forall_sql_limit, Forall_sql_offset, Forall_order_by, Forall_forall.
      by intros r [? _]%list_elem_of_filter. }
    revert Hst. induction Hrows as [|r job rows out Hr _ IH]; [constructor|].
    intros [Hst Hrest]%Forall_cons. constructor; [|by apply IH].
    apply row_to_job_fields in Hr as (_ & _ & Hof).
    rewrite Hst, of_value_value in Hof. congruence.
  - eapply StronglySorted_Forall2; [|exact Hrows|apply select_jobs_sorted].
    intros a a' b b' (_ & -> & _)%row_to_job_fields (_ & -> & _)%row_to_job_fields Hle.
    by apply Is_true_true.
  - assert (Forall (λ r, r ∈ jobs d) (select_jobs d limit status offset)) as Hin.
    { unfold select_jobs.
      apply Forall_sql_limit, Forall_sql_offset, Forall_order_by.
      destruct status; [|by apply Forall_forall].
      apply Forall_forall. by intros r [_ ?]%list_elem_of_filter. }
    revert Hin. induction Hrows as [|r job rows out Hr _ IH]; [constructor|].
    intros [Hin Hrest]%Forall_cons. constructor; [|by apply IH].
    apply row_to_job_fields in Hr as (-> & _). by apply list_elem_of_fmap_2.
Qed.

(** X17: the pages of [list_jobs] follow one another: a page of [n] jobs
    from an offset, followed by the page of [m] jobs from [n] further,
    is the page of [n + m] jobs from the offset, when [n + m] can be
    bound. *)
Theorem list_jobs_pages d (n m offset : Z) status page1 page2 :
  0 ≤ n → 0 ≤ m → 0 ≤ offset → n + m < 2 ^ 63 →
  list_jobs d n status offset = Ok page1 →
  list_jobs d m status (offset + n) = Ok page2 →
  list_jobs d (n + m) status offset = Ok (page1 ++ page2).
Proof.
  intros Hn Hm Ho Hnm (_ & Hoffset & H1)%list_jobs_Ok_inv (_ & _ & H2)%list_jobs_Ok_inv.
  unfold History.list_jobs.
  rewrite bind_ints_Ok
    by (constructor; [unfold int64; lia|constructor; [done|constructor]]).
  simpl.
  assert (select_jobs d (n + m) status offset
          = select_jobs d n status offset ++ select_jobs d m status (offset + n))
    as ->; [|by apply comprehension_app].
  unfold select_jobs, sql_limit, sql_offset.
  rewrite !(proj2 (Z.ltb_ge _ 0)) by lia.
  rewrite !Z2Nat.inj_add by lia. by rewrite <-drop_drop, take_take_drop.
Qed.
End Listing.

(** *** Statistics *)

Lemma count_by_status_lookup (rows : list History.job_row) (s : string) :
  History.count_by_status rows !! s
  = if decide (length (filter (λ r, History.r_status r = s) rows) = 0%nat) then None
    else Some (Z.of_nat (length (filter (λ r, History.r_status r = s) rows))).
Proof.
  induction rows as [|r rows IH]; [done|].
  cbn [History.count_by_status foldr].
  fold (History.count_by_status rows).
  rewrite filter_cons. destruct (decide (History.r_status r = s)) as [->|Hne].
  - rewrite lookup_insert_eq, IH. simpl.
    destruct (decide (length _ = 0%nat)) as [->|_]; simpl; f_equal; lia.
  - by rewrite lookup_insert_ne.
Qed.

Lemma JobStatus_of_value_Some (s : string) (st : History.JobStatus) :
  History.of_value s = Some st → s = History.value st.
Proof.
  unfold History.of_value, History.value, History.JobStatus_enum,
    History.JobStatus_of_value.
  simpl. repeat (case_decide; [intros [= <-]; by subst|]). done.
Qed.

Lemma count_statuses_sum (rows : list History.job_row) :
  Forall (λ r, is_Some (History.of_value (E:=History.JobStatus) (History.r_status r))) rows →
  foldr (λ st acc,
           Z.of_nat (length (filter (λ r, History.r_status r = History.value st) rows)) + acc)
    0 [History.PENDING; History.DOWNLOADING; History.PAUSED; History.COMPLETED;
       History.FAILED; History.CANCELLED; History.SKIPPED]
  = Z.of_nat (length rows).
Proof.
  induction 1 as [|r rows [st Hst] _ IH]; [done|].
  apply JobStatus_of_value_Some in Hst.
  cbn [foldr] in *. rewrite !filter_cons, Hst.
  destruct st; simpl in *; lia.
Qed.

(** X18: [get_stats] gives under [total] the number of stored jobs and
    under a status the number of jobs of that status; a status that no job
    has is not a key of the result. When every stored status is a value of
    the enum, the counts of the seven statuses add up to the total. *)
Theorem get_stats_counts (d : History.db) (s : string) :
  History.get_stats d !! "total" = Some (Z.of_nat (length (History.jobs d)))
  ∧ (s ≠ "total" →
     (filter (λ r, History.r_status r = s) (History.jobs d) = [] →
      History.get_stats d !! s = None)
     ∧ (filter (λ r, History.r_status r = s) (History.jobs d) ≠ [] →
        History.get_stats d !! s
        = Some (Z.of_nat (length (filter (λ r, History.r_status r = s) (History.jobs d))))))
  ∧ History.get_stats History.empty_db = {["total" := 0]}
  ∧ (Forall (λ r, is_Some (History.of_value (E:=History.JobStatus) (History.r_status r)))
       (History.jobs d) →
     foldr (λ st acc, default 0 (History.get_stats d !! History.value st) + acc) 0
       [History.PENDING; History.DOWNLOADING; History.PAUSED; History.COMPLETED;
        History.FAILED; History.CANCELLED; History.SKIPPED]
     = Z.of_nat (length (History.jobs d))).
Proof.
  unfold History.get_stats. split_and!.
  - apply lookup_insert_eq.
  - intros Hs. rewrite lookup_insert_ne, count_by_status_lookup by done.
    split.
    + intros ->. done.
    + intros Hne. destruct (decide _) as [Hz|_]; [|done].
      by apply nil_length_inv in Hz.
  - done.
  - intros Hvalid. rewrite <-(count_statuses_sum _ Hvalid).
    cbn [foldr].
    rewrite !lookup_insert_ne, !count_by_status_lookup by done.
    repeat (destruct (decide _) as [->|_]; simpl). all: done.
Qed.

Lemma get_stats_counts_witness :
  History.get_stats Fixtures.retention_db !! "completed" = Some 3
  ∧ History.get_stats Fixtures.retention_db !! "paused" = None.
Proof.
  split.
  - apply (get_stats_counts Fixtures.retention_db "completed"); [done|].
    vm_compute. discriminate.
  - apply (get_stats_counts Fixtures.retention_db "paused"); [done|].
    vm_compute. reflexivity.
Defined.

(** *** Retention at the edges *)

Lemma select_completed_beyond_drop_Z (d : History.db) (keep_last : Z) :
  History.select_completed_beyond d keep_last
  = drop (Z.to_nat keep_last) (History.completed_latest_first d).
Proof. reflexivity. Qed.

Section RetentionEdges.
Import History.
Variable SQLITE_LIMIT_VARIABLE_NUMBER : Z.
Abbreviation clear_completed_jobs :=
  (History.clear_completed_jobs SQLITE_LIMIT_VARIABLE_NUMBER).
Implicit Types (d : db).

Lemma clear_completed_jobs_nothing d (keep_last : Z) :
  int64 keep_last →
  (length (filter (λ r, r_status r = value COMPLETED) (jobs d))
   ≤ Z.to_nat keep_last)%nat →
  clear_completed_jobs d keep_last = (d, Ok 0).
Proof.
  intros Hk Hlen. unfold History.clear_completed_jobs.
  rewrite bind_ints_Ok by (constructor; [done|constructor]).
  rewrite select_completed_beyond_drop_Z, drop_ge; [done|].
  unfold completed_latest_first. by rewrite order_by_length.
Qed.

Lemma clear_completed_jobs_left d (keep_last : Z) :
  (length (filter (λ r, r_status r = value COMPLETED)
             (jobs (clear_completed_jobs d keep_last).1))
   ≤ Z.to_nat keep_last)%nat
  ∨ clear_completed_jobs d keep_last = (d, Ok 0)
  ∨ ∃ e, clear_completed_jobs d keep_last = (d, Raise e).
Proof.
  unfold History.clear_completed_jobs.
  destruct (bind_ints [keep_last]); [|right; right; by eexists].
  rewrite select_completed_beyond_drop_Z.
  set (sorted := completed_latest_first d).
  destruct (r_job_id <$> drop (Z.to_nat keep_last) sorted) as [|i ids] eqn:Hids;
    [right; by left|].
  case_bool_decide; [left|right; right; by eexists].
  rewrite <-Hids. cbn [fst delete_jobs jobs]. rewrite filter_comm.
  assert (filter (λ r, r_status r = value COMPLETED) (jobs d) ≡ₚ sorted) as ->
    by (symmetry; apply order_by_Permutation).
  set (deleted := drop (Z.to_nat keep_last) sorted).
  replace (filter (λ r, r_job_id r ∉ r_job_id <$> deleted) sorted)
    with (filter (λ r, r_job_id r ∉ r_job_id <$> deleted)
            (take (Z.to_nat keep_last) sorted ++ deleted))
    by (unfold deleted; by rewrite take_drop).
  rewrite filter_app, (filter_none _ deleted), app_nil_r.
  - etrans; [apply length_filter|]. rewrite length_take. lia.
  - apply Forall_forall. intros r Hr Hn. apply Hn. by apply list_elem_of_fmap_2.
Qed.

(** X19: for a [keep_last] that can be bound: with no more completed jobs
    than [keep_last], [clear_completed_jobs] deletes nothing and returns 0;
    after a call that returned, a second call with the same [keep_last]
    does so; with [keep_last] zero or negative every completed job is
    deleted and their number returned, when they are no more than a
    statement takes parameters, and otherwise the call raises and deletes
    nothing. *)
Theorem clear_completed_jobs_edges d (keep_last : Z) :
  let completed := filter (λ r, r_status r = value COMPLETED) (jobs d) in
  int64 keep_last →
  (Z.of_nat (length completed) ≤ keep_last →
   clear_completed_jobs d keep_last = (d, Ok 0))
  ∧ ((∃ n, (clear_completed_jobs d keep_last).2 = Ok n) →
     clear_completed_jobs (clear_completed_jobs d keep_last).1 keep_last
     = ((clear_completed_jobs d keep_last).1, Ok 0))
  ∧ (keep_last ≤ 0 → NoDup (r_job_id <$> jobs d) →
     Z.of_nat (length completed) ≤ SQLITE_LIMIT_VARIABLE_NUMBER →
     jobs (clear_completed_jobs d keep_last).1
     = filter (λ r, r_status r ≠ value COMPLETED) (jobs d)
     ∧ (clear_completed_jobs d keep_last).2 = Ok (Z.of_nat (length completed)))
  ∧ (keep_last ≤ 0 →
     0 ≤ SQLITE_LIMIT_VARIABLE_NUMBER < Z.of_nat (length completed) →
     clear_completed_jobs d keep_last
     = (d, Raise OperationalError)).
Proof.
  intros completed Hbind.
  assert (keep_last ≤ 0 →
          select_completed_beyond d keep_last = completed_latest_first d) as Hall.
  { intros Hk. rewrite select_completed_beyond_drop_Z.
    replace (Z.to_nat keep_last) with 0%nat by lia. by rewrite drop_0. }
  assert (completed_latest_first d ≡ₚ completed) as Hperm
    by apply order_by_Permutation.
  split_and!.
  - intros Hk. apply clear_completed_jobs_nothing; [done|]. fold completed. lia.
  - intros [n Hn].
    destruct (clear_completed_jobs_left d keep_last) as [Hle|[Heq|[e Heq]]].
    + by apply clear_completed_jobs_nothing.
    + by rewrite !Heq.
    + by rewrite Heq in Hn.
  - intros Hk Hnodup Hvars. unfold History.clear_completed_jobs.
    rewrite bind_ints_Ok by (constructor; [done|constructor]).
    rewrite (Hall Hk).
    destruct (r_job_id <$> completed_latest_first d) as [|i ids] eqn:Hids.
    + apply fmap_nil_inv in Hids. rewrite Hids in Hperm.
      apply Permutation_nil_l in Hperm. rewrite <-Hperm. cbn [fst snd length].
      split; [|done]. symmetry. apply filter_all, Forall_forall.
      intros r Hr Hst.
      assert (r ∈ completed) as Hin by by apply list_elem_of_filter.
      rewrite <-Hperm in Hin. by apply elem_of_nil in Hin.
    + rewrite <-Hids, bool_decide_eq_true_2 by (by rewrite length_fmap, Hperm).
      cbn [fst snd delete_jobs jobs]. split.
      * apply filter_ext_in. intros r Hr. split.
        -- intros Hn Hst. apply Hn, list_elem_of_fmap_2. rewrite Hperm.
           by apply list_elem_of_filter.
        -- intros Hst (r' & Hid & Hr')%list_elem_of_fmap.
           rewrite Hperm in Hr'. apply list_elem_of_filter in Hr' as [Hst' Hr'].
           assert (r = r') as <- by by eapply NoDup_fmap_elem_eq.
           done.
      * by rewrite length_fmap, Hperm.
  - intros Hk [Hpos Hmany].
    apply (clear_completed_jobs_raises SQLITE_LIMIT_VARIABLE_NUMBER d keep_last);
      [done..|].
    by rewrite (Hall Hk), Hperm.
Qed.
End RetentionEdges.

Lemma clear_completed_jobs_edges_witness :
  History.clear_completed_jobs Fixtures.variable_number Fixtures.retention_db 3
  = (Fixtures.retention_db, Py.Ok 0)
  ∧ (History.clear_completed_jobs Fixtures.variable_number Fixtures.retention_db 0).2
    = Py.Ok 3.
Proof.
  assert (∀ n, -5 ≤ n ≤ 5 → History.int64 n) as Hbind
    by (intros n Hn; unfold History.int64; lia).
  split.
  - apply (proj1 (clear_completed_jobs_edges Fixtures.variable_number
                    Fixtures.retention_db 3 (Hbind 3 ltac:(lia)))).
    vm_compute. discriminate.
  - apply (proj1 (proj2 (proj2 (clear_completed_jobs_edges Fixtures.variable_number
                                  Fixtures.retention_db 0 (Hbind 0 ltac:(lia)))))).
    + lia.
    + apply (bool_decide_unpack _). by vm_compute.
    + vm_compute. discriminate.
Defined.

(** *** Event ids and the events of a job *)

Section EventIds.
Import History.
Context {DownloadEventType : Type} `{!PyEnum DownloadEventType}.
Variable json_dumps : json → string.
Variable json_loads : string → result json.
Variable SQLITE_LIMIT_VARIABLE_NUMBER : Z.

Abbreviation DownloadEvent := (History.DownloadEvent DownloadEventType).
Abbreviation write := (History.write DownloadEventType).
Abbreviation run_write := (History.run_write json_dumps SQLITE_LIMIT_VARIABLE_NUMBER).
Abbreviation append_event := (History.append_event json_dumps).
Abbreviation get_job_events :=
  (History.get_job_events (DownloadEventType:=DownloadEventType) json_loads).
Implicit Types (d : db) (ev : DownloadEvent) (ws : list write).

Lemma next_event_id_seq d : ids_in_order d → next_event_id d = events_seq d + 1.
Proof.
  intros (_ & Hle & Hseq). unfold next_event_id.
  assert (foldr Z.max 0 (e_id <$> events d) ≤ events_seq d) as Hmax.
  { induction Hle as [|i l Hi _ IH]; simpl; lia. }
  lia.
Qed.

Lemma ids_in_order_filter d (P : event_row → Prop) `{!∀ r, Decision (P r)} jobs' :
  ids_in_order d →
  ids_in_order {| jobs := jobs'; events := filter P (events d);
                  events_seq := events_seq d |}.
Proof.
  intros (Hs & Hle & Hseq). unfold ids_in_order. simpl. split_and!; [| |done].
  - clear Hle. induction (events d) as [|r l IH]; [constructor|].
    rewrite fmap_cons in Hs. apply StronglySorted_cons in Hs as [Hr Hl].
    rewrite filter_cons. destruct (decide (P r)); [|by apply IH].
    rewrite fmap_cons. apply StronglySorted_cons. split; [|by apply IH].
    rewrite Forall_fmap in Hr |- *. by apply Forall_filter_keep.
  - rewrite Forall_fmap in Hle |- *. by apply Forall_filter_keep.
Qed.

Lemma ids_in_order_run_write d (w : write) :
  ids_in_order d → ids_in_order (run_write d w) ∧ events_seq d ≤ events_seq (run_write d w).
Proof.
  intros Hd. destruct w as [job|ev|job_id|keep_last]; simpl.
  - destruct (decide (storable job)) as [Hjob|Hjob];
      [by rewrite (save_job_Ok json_dumps)|by rewrite (save_job_Raise json_dumps)].
  - pose proof (next_event_id_seq d Hd) as Hnext. destruct Hd as (Hs & Hle & Hseq).
    rewrite Hnext. split; [|lia]. unfold ids_in_order. simpl.
    rewrite fmap_app, !Hnext. simpl.
    split_and!; [| |lia].
    + apply StronglySorted_app. split_and!; [|done|by repeat constructor].
      intros x1 x2 Hx1 ->%list_elem_of_singleton.
      rewrite Forall_forall in Hle. specialize (Hle x1 Hx1). lia.
    + apply Forall_app. split.
      * eapply Forall_impl; [exact Hle|]. simpl. lia.
      * apply Forall_singleton. lia.
  - split; [|done]. by apply (ids_in_order_filter d).
  - destruct (clear_completed_jobs_store SQLITE_LIMIT_VARIABLE_NUMBER d keep_last)
      as [->|[ids ->]]; [done|].
    split; [|done]. by apply (ids_in_order_filter d).
Qed.

Lemma ids_in_order_reached ws : ids_in_order (foldl run_write empty_db ws).
Proof.
  assert (ids_in_order empty_db) as Hd by (by split_and!; [constructor|constructor|]).
  revert Hd. generalize empty_db.
  induction ws as [|w ws IH]; intros d Hd; [done|].
  simpl. by apply IH, ids_in_order_run_write.
Qed.

(** X20: in every store that the writing calls reach from a fresh file
    the event ids grow along the table, so no two events share an id; an
    appended event gets an id one above the largest id ever given, which no
    write lowers, so the id of a deleted event is not given again. *)
Theorem event_ids_increase ws ev (w : write) :
  let d := foldl run_write empty_db ws in
  StronglySorted Z.lt (e_id <$> events d)
  ∧ NoDup (e_id <$> events d)
  ∧ Forall (λ r, 1 ≤ e_id r ≤ events_seq d) (events d)
  ∧ events_seq d ≤ events_seq (run_write d w)
  ∧ e_id <$> events (append_event d ev) = (e_id <$> events d) ++ [events_seq d + 1]
  ∧ events_seq (append_event d ev) = events_seq d + 1.
Proof.
  intros d. pose proof (ids_in_order_reached ws) as Hd. fold d in Hd.
  pose proof Hd as (Hs & Hle & Hseq).
  split_and!.
  - done.
  - clear Hle. induction Hs as [|i l _ IH Hi]; [constructor|].
    apply NoDup_cons. split; [|done]. intros Hin.
    rewrite Forall_forall in Hi. specialize (Hi i Hin). lia.
  - by rewrite Forall_fmap in Hle.
  - by apply ids_in_order_run_write.
  - simpl. by rewrite fmap_app, (next_event_id_seq d Hd).
  - simpl. by rewrite (next_event_id_seq d Hd).
Qed.

(** X21: [get_job_events] returns events of the job asked for only, and
    appending an event to another job leaves its result as it was. *)
Theorem get_job_events_of_job d (job_id : string) (limit : Z) :
  (∀ out, get_job_events d job_id limit = Ok out →
          Forall (λ ev, History.job_id ev = job_id) out)
  ∧ (∀ ev, History.job_id ev ≠ job_id →
           get_job_events (append_event d ev) job_id limit
           = get_job_events d job_id limit).
Proof.
  split.
  - intros out Hout. unfold History.get_job_events in Hout.
    destruct (bind_ints [limit]); simpl in Hout; [|done].
    apply comprehension_Ok_inv in Hout.
    assert (Forall (λ r, e_job_id r = job_id) (select_job_events d job_id limit)) as Hrows.
    { unfold select_job_events. apply Forall_sql_limit, Forall_order_by, Forall_forall.
      by intros r [? _]%list_elem_of_filter. }
    revert Hrows. induction Hout as [|r ev rows out Hr _ IH]; [constructor|].
    intros [Hid Hrest]%Forall_cons. constructor; [|by apply IH].
    unfold History._row_to_event, enum_call in Hr.
    destruct (of_value (e_type r)),
      (load_json_column json_loads (e_payload_json r)); simpl in Hr; try done.
    injection Hr as <-. done.
  - intros ev Hne. unfold History.get_job_events, select_job_events. simpl.
    rewrite filter_app, filter_cons_False, app_nil_r by (simpl; auto). done.
Qed.
End EventIds.

Lemma reads_never_raise_witness :
  ∃ listed,
    History.list_jobs Fixtures.loads
      (foldl (History.run_write Fixtures.dumps Fixtures.variable_number) History.empty_db
         [History.SaveJob (Fixtures.job_of "job-1" History.PENDING None);
          History.AppendEvent (Fixtures.log_event "job-1" "2024-01-01T08:00:00");
          History.ClearCompletedJobs 0])
      History.list_jobs_limit None 0
    = Py.Ok listed.
Proof.
  eapply (reads_never_raise (DownloadEventType:=Fixtures.EventTag)
            Fixtures.dumps Fixtures.loads Fixtures.variable_number _ "job-1").
  - repeat constructor; by eexists.
  - unfold History.int64, History.list_jobs_limit. lia.
  - unfold History.int64. lia.
Defined.

Lemma get_job_reads_saved_job_witness :
  History.get_job Fixtures.loads
    (History.save_job Fixtures.dumps
       (History.save_job Fixtures.dumps History.empty_db
          (Fixtures.job_of "job-1" History.PENDING None)).1
       (Fixtures.job_of "job-2" History.FAILED None)).1
    "job-1"
  = Py.Ok (Some (Fixtures.job_of "job-1" History.PENDING None)).
Proof.
  apply (get_job_reads_saved_job (DownloadEventType:=Fixtures.EventTag)
           Fixtures.dumps Fixtures.loads Fixtures.variable_number History.empty_db
           (Fixtures.job_of "job-1" History.PENDING None)
           [History.SaveJob (Fixtures.job_of "job-2" History.FAILED None)]).
  - apply (bool_decide_unpack _). by vm_compute.
  - reflexivity.
  - discriminate.
  - repeat constructor. discriminate.
Defined.

Lemma save_job_frame_witness :
  History.get_job Fixtures.loads
    (History.save_job Fixtures.dumps Fixtures.retention_db
       (Fixtures.job_of "job-5" History.PENDING None)).1 "job-1"
  = History.get_job Fixtures.loads Fixtures.retention_db "job-1".
Proof.
  apply (save_job_frame (DownloadEventType:=Fixtures.EventTag)
           Fixtures.dumps Fixtures.loads Fixtures.variable_number Fixtures.retention_db
           (Fixtures.job_of "job-5" History.PENDING None) "job-1" 0).
  discriminate.
Defined.

Lemma delete_job_removes_witness :
  (History.delete_job Fixtures.retention_db "job-3").2 = true.
Proof.
  apply (delete_job_removes (DownloadEventType:=Fixtures.EventTag)
           Fixtures.loads Fixtures.retention_db "job-3" "job-1" 0).
  eexists. split;
    [apply list_elem_of_further, list_elem_of_further, list_elem_of_here
    |reflexivity].
Defined.

Lemma list_jobs_filtered_sorted_witness :
  ∃ listed,
    History.list_jobs Fixtures.loads Fixtures.retention_db 2
      (Some History.COMPLETED) 0 = Py.Ok listed
    ∧ Forall (λ job, History.status job = History.COMPLETED) listed.
Proof.
  eexists. split; [reflexivity|].
  refine (proj1 (proj2 (list_jobs_filtered_sorted Fixtures.loads
                          Fixtures.retention_db 2 (Some History.COMPLETED) 0 _ _))
            History.COMPLETED _); reflexivity.
Defined.

Lemma list_jobs_pages_witness :
  ∃ page1 page2,
    History.list_jobs Fixtures.loads Fixtures.retention_db 1 None 0 = Py.Ok page1
    ∧ History.list_jobs Fixtures.loads Fixtures.retention_db 2 None 1 = Py.Ok page2
    ∧ History.list_jobs Fixtures.loads Fixtures.retention_db 3 None 0
      = Py.Ok (page1 ++ page2).
Proof.
  eexists _, _. split_and!; [reflexivity..|].
  apply (list_jobs_pages Fixtures.loads Fixtures.retention_db 1 2 0 None);
    [lia..|reflexivity|reflexivity].
Defined.

Lemma get_job_events_of_job_witness :
  History.get_job_events Fixtures.loads
    (History.append_event Fixtures.dumps Fixtures.retention_db
       (Fixtures.log_event "job-2" "2024-01-05T08:00:00")) "job-1" 10
  = History.get_job_events Fixtures.loads Fixtures.retention_db "job-1" 10.
Proof.
  apply (get_job_events_of_job (DownloadEventType:=Fixtures.EventTag)
           Fixtures.dumps Fixtures.loads Fixtures.retention_db "job-1" 10).
  discriminate.
Defined.

(** ** The tabs of the settings page *)

Section SettingsTabs.
Import Settings.
Implicit Types (advanced_mode : bool) (tabs : list string) (entry : string * bool).

Lemma tab_names_distinct : NoDup tab_names.*1.
Proof. apply (bool_decide_unpack _). by vm_compute. Qed.

Lemma elem_of_should_show advanced_mode name :
  name ∈ should_show advanced_mode
  ↔ ∃ entry, entry ∈ tab_names ∧ entry.1 = name ∧ shown advanced_mode entry.
Proof.
  unfold should_show. rewrite list_elem_of_fmap. split.
  - intros (entry & -> & [Hs Hin]%list_elem_of_filter). by exists entry.
  - intros (entry & Hin & <- & Hs). exists entry. split; [done|].
    by apply list_elem_of_filter.
Qed.

Lemma shown_should_show advanced_mode entry :
  entry ∈ tab_names → entry.1 ∈ should_show advanced_mode ↔ shown advanced_mode entry.
Proof.
  intros Hin. rewrite elem_of_should_show. split; [|by exists entry].
  intros (entry' & Hin' & Heq & Hs).
  by rewrite <-(NoDup_fmap_elem_eq fst tab_names entry' entry tab_names_distinct).
Qed.

Lemma add_fold advanced_mode (entries : list (string * bool)) tabs :
  NoDup entries.*1 →
  foldl (λ tabs entry,
           if shown advanced_mode entry && bool_decide (entry.1 ∉ tabs)
           then tabs ++ [entry.1] else tabs) tabs entries
  = tabs ++ (filter (λ entry, shown advanced_mode entry ∧ entry.1 ∉ tabs) entries).*1.
Proof.
  revert tabs. induction entries as [|entry entries IH]; intros tabs Hnd.
  - by rewrite app_nil_r.
  - rewrite fmap_cons in Hnd. apply NoDup_cons in Hnd as [Hentry Hnd].
    cbn [foldl]. rewrite filter_cons.
    destruct (shown advanced_mode entry) eqn:Hs; simpl.
    + case_bool_decide as Hin.
      * rewrite decide_True by done.
        rewrite IH by done. rewrite fmap_cons, <-app_assoc. simpl. do 2 f_equal.
        f_equal. apply filter_ext_in. intros entry' Hin'.
        rewrite elem_of_app, list_elem_of_singleton.
        assert (entry'.1 ≠ entry.1).
        { intros Heq. apply Hentry. rewrite <-Heq. by apply list_elem_of_fmap_2. }
        tauto.
      * rewrite decide_False by tauto. by apply IH.
    + by apply IH.
Qed.

(** What [refresh_tabs] leaves: the tabs that stay, in their order, then
    the tabs to show that were missing, in the order of [tab_names]. *)
Lemma refresh_tabs_eq advanced_mode tabs :
  refresh_tabs advanced_mode tabs
  = remove_tabs advanced_mode tabs
    ++ (filter (λ entry, shown advanced_mode entry ∧ entry.1 ∉ tabs) tab_names).*1.
Proof.
  unfold refresh_tabs, add_tabs. rewrite add_fold by apply tab_names_distinct.
  do 2 f_equal. apply filter_ext_in. intros entry Hin.
  unfold remove_tabs. rewrite list_elem_of_filter.
  pose proof (shown_should_show advanced_mode entry Hin). tauto.
Qed.

Lemma elem_of_refresh_tabs advanced_mode tabs name :
  name ∈ refresh_tabs advanced_mode tabs ↔ name ∈ should_show advanced_mode.
Proof.
  rewrite refresh_tabs_eq, elem_of_app. unfold remove_tabs.
  rewrite list_elem_of_filter, list_elem_of_fmap. split.
  - intros [[? _]|(entry & -> & [[Hs _] Hin]%list_elem_of_filter)]; [done|].
    by apply shown_should_show.
  - intros Hname. destruct (decide (name ∈ tabs)) as [Hin|Hnin]; [by left|right].
    apply elem_of_should_show in Hname as (entry & Hin & <- & Hs).
    exists entry. split; [done|]. by apply list_elem_of_filter.
Qed.

(** X22: after [refresh_tabs] the tabs are the tabs that were there and
    are to be shown, in the order they had, followed by the tabs to show
    that were missing, in the order of [tab_names]. So the tabs are exactly
    the tabs to show for the mode, each once; a tab that is not an advanced
    one is never removed; on a new page the tabs come in the order of
    [tab_names]. *)
Theorem refresh_tabs_shows advanced_mode tabs :
  refresh_tabs advanced_mode tabs
  = filter (λ name, name ∈ should_show advanced_mode) tabs
    ++ (filter (λ entry, shown advanced_mode entry ∧ entry.1 ∉ tabs) tab_names).*1
  ∧ (∀ name, name ∈ refresh_tabs advanced_mode tabs ↔ name ∈ should_show advanced_mode)
  ∧ (NoDup tabs → NoDup (refresh_tabs advanced_mode tabs))
  ∧ remove_tabs advanced_mode tabs `prefix_of` refresh_tabs advanced_mode tabs
  ∧ (∀ name, name ∈ tabs → name ∈ should_show false →
       name ∈ remove_tabs advanced_mode tabs)
  ∧ refresh_tabs advanced_mode [] = should_show advanced_mode.
Proof.
  split_and!.
  - apply refresh_tabs_eq.
  - apply elem_of_refresh_tabs.
  - intros Hnd. rewrite refresh_tabs_eq. apply NoDup_app. split_and!.
    + by apply NoDup_filter.
    + intros name [_ Hin]%list_elem_of_filter
        (entry & -> & [[_ Hnin] _]%list_elem_of_filter)%list_elem_of_fmap.
      done.
    + apply NoDup_fmap_filter, tab_names_distinct.
  - rewrite refresh_tabs_eq. by apply prefix_app_r.
  - intros name Hin (entry & Hentry & <- & Hs)%elem_of_should_show.
    apply list_elem_of_filter. split; [|done].
    apply elem_of_should_show. exists entry. split_and!; [done..|].
    unfold shown in *. by destruct (entry.2), advanced_mode.
  - rewrite refresh_tabs_eq. unfold remove_tabs, should_show.
    rewrite filter_nil, app_nil_l. f_equal. apply filter_ext_in.
    intros entry _. rewrite elem_of_nil. tauto.
Qed.

Lemma filter_fmap_fst {A B} (P : A * B → Prop) (Q : A → Prop)
    `{!∀ x, Decision (P x)} `{!∀ x, Decision (Q x)} (l : list (A * B)) :
  filter Q (filter P l).*1 = (filter (λ x, P x ∧ Q x.1) l).*1.
Proof.
  induction l as [|x l IH]; [done|].
  rewrite !filter_cons. destruct (decide (P x)) as [Hp|Hp].
  - rewrite fmap_cons, filter_cons. destruct (decide (Q x.1)) as [Hq|Hq].
    + rewrite decide_True by done. by rewrite fmap_cons, IH.
    + rewrite decide_False by tauto. done.
  - rewrite decide_False by tauto. done.
Qed.

(** X23: [refresh_tabs] is idempotent, and switching the advanced mode on
    and off again leaves the tabs that switching it off at once leaves. *)
Theorem refresh_tabs_idempotent advanced_mode tabs :
  refresh_tabs advanced_mode (refresh_tabs advanced_mode tabs)
  = refresh_tabs advanced_mode tabs
  ∧ refresh_tabs false (refresh_tabs true tabs) = refresh_tabs false tabs.
Proof.
  split.
  - rewrite (refresh_tabs_eq advanced_mode (refresh_tabs advanced_mode tabs)).
    unfold remove_tabs at 1. rewrite filter_all, filter_none.
    + by rewrite app_nil_r.
    + apply Forall_forall. intros entry Hin [Hs Hnin]. apply Hnin.
      apply elem_of_refresh_tabs. by apply shown_should_show.
    + apply Forall_forall. intros name. by rewrite elem_of_refresh_tabs.
  - rewrite (refresh_tabs_eq false (refresh_tabs true tabs)).
    rewrite (filter_none _ tab_names), app_nil_r.
    + rewrite (refresh_tabs_eq true), (refresh_tabs_eq false).
      unfold remove_tabs. rewrite filter_app. f_equal.
      * rewrite list_filter_filter. apply list_filter_iff. intros name.
        split; [tauto|]. intros Hname. split; [done|].
        apply elem_of_should_show in Hname as (entry & Hin & <- & Hs).
        apply elem_of_should_show. exists entry. split_and!; [done..|].
        unfold shown in *. by destruct (entry.2).
      * rewrite filter_fmap_fst. f_equal. apply filter_ext_in. intros entry Hin.
        pose proof (shown_should_show false entry Hin).
        assert (shown false entry → shown true entry)
          by (unfold shown; by destruct (entry.2)).
        tauto.
    + apply Forall_forall. intros entry Hin [Hs Hnin]. apply Hnin.
      apply elem_of_refresh_tabs, shown_should_show; [done|].
      unfold shown in *. by destruct (entry.2).
Qed.
End SettingsTabs.

Lemma refresh_tabs_shows_witness :
  NoDup (Settings.refresh_tabs true ["Cookies"; "General"]).
Proof.
  apply (refresh_tabs_shows true ["Cookies"; "General"]).
  apply (bool_decide_unpack _). by vm_compute.
Defined.

(** ** The installation checks *)

Section InstallChecks.
Import ValidateInstall.

(** A loop that only ever lowers its flag computes a conjunction. *)
Lemma foldl_flag {A} (check : A → bool) (ok : bool) (l : list A) :
  foldl (λ ok x, if check x then ok else false) ok l = ok && forallb check l.
Proof.
  revert ok. induction l as [|x l IH]; intros ok; simpl.
  - by rewrite andb_true_r.
  - rewrite IH. by destruct ok, (check x).
Qed.

Lemma forallb_elem_of {A} (check : A → bool) (l : list A) :
  forallb check l = true ↔ ∀ x, x ∈ l → check x = true.
Proof. rewrite forallb_forall. by setoid_rewrite list_elem_of_In. Qed.

(** X24: [check_module] returns [not optional] for a module that is not
    found: a missing module fails the check exactly when it is listed as
    optional. So the exit status of [main], which is 0 or 1, is 0 exactly
    when the interpreter is at least 3.8, selenium (the one optional module
    of the two lists that count) is found and each of the five project files
    exists; the eight modules listed as required do not count. *)
Theorem main_exit_status (m : Machine) :
  (main m = 0 ∨ main m = 1)
  ∧ (main m = 0 ↔
       python_ok m = true
       ∧ find_spec m "selenium" = true
       ∧ (∀ filepath, filepath ∈ files → path_exists m filepath = true))
  ∧ (∀ name optional,
       check_module m name optional = false ↔
       find_spec m name = false ∧ optional = true).
Proof.
  assert (Hstatus : ∀ b : bool, (if b then 0 else 1) = 0 ↔ b = true)
    by (by intros []).
  split_and!.
  - unfold main. cbv zeta. by destruct (foldl _ _ files); [left|right].
  - unfold main. cbv zeta. rewrite Hstatus, !foldl_flag.
    rewrite !andb_true_iff, !forallb_elem_of. unfold check_file. split.
    + intros [[[Hpy Hcore] Hdl] Hfiles].
      split_and!; [by destruct (python_ok m)| |done].
      specialize (Hdl ("selenium", true)). unfold check_module in Hdl.
      simpl in Hdl. destruct (find_spec m "selenium"); [done|].
      apply Hdl. unfold downloader_modules. rewrite !elem_of_cons. naive_solver.
    + intros (Hpy & Hsel & Hfiles). split_and!; [by rewrite Hpy| | |done].
      * intros [name optional] Hin. unfold check_module. simpl.
        unfold core_modules in Hin. rewrite !elem_of_cons in Hin.
        destruct Hin as [?|[?|[?|[?|[?|[]%elem_of_nil]]]]]; simplify_eq;
          by case_match.
      * intros [name optional] Hin. unfold check_module. simpl.
        unfold downloader_modules in Hin. rewrite !elem_of_cons in Hin.
        destruct Hin as [?|[?|[?|[?|[]%elem_of_nil]]]]; simplify_eq;
          [by case_match..|].
        by rewrite Hsel.
  - intros name optional. unfold check_module.
    destruct (find_spec m name), optional; naive_solver.
Qed.

(** X25: the installer and the validator accept the same interpreters:
    [check_python_version] of install.py and the version test of
    [main] in validate_install.py agree on every version, and both hold
    exactly from 3.8 on. *)
Theorem python_version_checks_agree (m : Machine) :
  Install.check_python_version (version_info m) = python_ok m
  ∧ (python_ok m = true ↔
       3 < (version_info m).1 ∨ ((version_info m).1 = 3 ∧ 8 ≤ (version_info m).2)).
Proof.
  unfold Install.check_python_version, python_ok.
  destruct (version_info m) as [major minor]. simpl. split.
  - destruct (Z.ltb_spec major 3), (Z.ltb_spec 3 major), (Z.eqb_spec major 3),
      (Z.ltb_spec minor 8), (Z.leb_spec 8 minor); simpl; try done; lia.
  - rewrite orb_true_iff, andb_true_iff, Z.ltb_lt, Z.eqb_eq, Z.leb_le. tauto.
Qed.

(** X26: the two flags of [main] that select its messages. The GUI flag
    is lowered only for a failed check of a module that is not optional,
    and no such check fails: the GUI always counts as available. The web
    backend counts as available exactly when all of its five modules are
    found. *)
Theorem main_flags (m : Machine) :
  gui_available m = true
  ∧ (web_available m = true ↔
       ∀ name, name ∈ web_modules.*1 → find_spec m name = true).
Proof.
  split.
  - unfold gui_available, gui_modules, check_module. simpl.
    by destruct (find_spec m "tkinter"), (find_spec m "customtkinter"),
      (find_spec m "tkinterdnd2"), (find_spec m "tkinterweb"),
      (find_spec m "markdown2").
  - unfold web_available.
    rewrite (foldl_flag (λ entry, check_module m entry.1 true) true web_modules).
    rewrite andb_true_l, forallb_elem_of. split.
    + intros Hweb name (entry & -> & Hin)%list_elem_of_fmap.
      specialize (Hweb _ Hin). unfold check_module in Hweb. simpl in Hweb.
      by destruct (find_spec m entry.1).
    + intros Hmods entry Hin. unfold check_module.
      by rewrite Hmods by (by apply list_elem_of_fmap_2).
Qed.
End InstallChecks.

Lemma main_exit_status_witness :
  ValidateInstall.main
    {| ValidateInstall.version_info := (3, 11);
       ValidateInstall.find_spec := λ name, String.eqb name "selenium";
       ValidateInstall.path_exists := λ _, true |} = 0.
Proof.
  apply main_exit_status. split_and!; reflexivity.
Defined.

Lemma python_version_checks_agree_witness :
  ValidateInstall.python_ok
    {| ValidateInstall.version_info := (3, 8);
       ValidateInstall.find_spec := λ _, false;
       ValidateInstall.path_exists := λ _, false |} = true.
Proof.
  apply python_version_checks_agree. simpl. lia.
Defined.

Lemma main_flags_witness :
  ValidateInstall.web_available
    {| ValidateInstall.version_info := (3, 8);
       ValidateInstall.find_spec := λ _, true;
       ValidateInstall.path_exists := λ _, false |} = true.
Proof.
  apply main_flags. reflexivity.
Defined.
